(** * Session dispatch scheduler: WhatsAppManager, MemStorage and the
      session routes, embedded from whatsapp.ts, storage.ts and
      routes.ts.

    JavaScript values are modelled as follows.
    - A string is the list of its UTF-16 code units ([list N]).
    - [Map<string, V>] is a [gmap (list N) V]; the claims never depend on
      the iteration order of a Map.
    - Array indices and counters are natural numbers.  [messageCount]
      only ever grows by one from zero, so it stays an exact integer.
    - [new Date()] is an integer time stamp handed in by the caller.
    - The outside world (file system, NODE_ENV, the whatsapp-web.js
      client) is an explicit environment record, and the effects the
      manager has on it (armed interval timers, constructed and destroyed
      clients, sendMessage calls) are fields of the manager's world.
    - [log(...)] only prints and is left out.
    - The manager's methods are async.  Each is given twice: as one
      function from entry to return, for what a single call does when
      nothing else runs meanwhile, and, in module [Async], cut into
      the segments between its awaits, which the event loop may
      interleave with the segments of other calls.
    - [setInterval] keeps a delay only between 1 and 2^31 - 1
      milliseconds and takes 1 millisecond otherwise, as Node does. *)

From Stdlib Require Import String Ascii.
From stdpp Require Import gmap list fin_maps.

Abbreviation jsstring := (list N).

(** ** JavaScript string primitives used by the sources *)
Module JS.

(** A Rocq string literal read as a JavaScript string. *)
Definition str (s : string) : jsstring :=
  map N_of_ascii (list_ascii_of_string s).

(** [Boolean(s)] for a string: only the empty string is falsy. *)
Definition truthy (s : jsstring) : bool :=
  match s with [] => false | _ :: _ => true end.

(** [s.split(sep)] for a one-character separator: never the empty
    array, [[""]] for the empty string. *)
Fixpoint split (sep : N) (s : jsstring) : list jsstring :=
  match s with
  | [] => [[]]
  | c :: r =>
      if N.eqb c sep then [] :: split sep r
      else match split sep r with
           | p :: ps => (c :: p) :: ps
           | [] => [[c]]
           end
  end.

(** WhiteSpace and LineTerminator code points of ECMAScript, the ones
    [String.prototype.trim] strips. *)
Definition isWhiteSpace (c : N) : bool :=
  ((9 <=? c) && (c <=? 13) || (c =? 32) || (c =? 160) || (c =? 5760)
   || (8192 <=? c) && (c <=? 8202) || (c =? 8232) || (c =? 8233)
   || (c =? 8239) || (c =? 8287) || (c =? 12288) || (c =? 65279))%N.

Fixpoint trimStart (s : jsstring) : jsstring :=
  match s with
  | [] => []
  | c :: r => if isWhiteSpace c then trimStart r else s
  end.

Definition trimEnd (s : jsstring) : jsstring :=
  rev (trimStart (rev s)).

Definition trim (s : jsstring) : jsstring := trimEnd (trimStart s).

Fixpoint startsWith (p s : jsstring) : bool :=
  match p, s with
  | [], _ => true
  | _ :: _, [] => false
  | a :: p', b :: s' => N.eqb a b && startsWith p' s'
  end.

(** [s.includes(p)] *)
Fixpoint includes (p s : jsstring) : bool :=
  startsWith p s ||
  match s with
  | [] => false
  | _ :: r => includes p r
  end.

Definition comma : N := 44.
Definition newline : N := 10.

(** The delay a Node timer runs with when [ms] milliseconds are asked
    for: a value below 1 or above 2^31 - 1 is replaced by 1. *)
Definition timerDelay (ms : Z) : Z :=
  if ((1 <=? ms) && (ms <=? 2147483647))%Z then ms else 1%Z.

End JS.

(** ** The rows of @shared/schema *)

(** Modelled from the spec: the row types [InsertWhatsappSession] and
    [WhatsappSession] of @shared/schema, a module that is not among the
    sources.  The fields are those of the spec's Persisted Session
    Record, named as [MemStorage.createSession] writes them and as the
    start route supplies them. *)
Module Schema.

Record InsertWhatsappSession := {
  i_sessionId : jsstring;
  i_phoneNumber : jsstring;
  i_connectionType : jsstring;
  i_phoneId : option jsstring;
  i_targets : jsstring;
  i_messagePath : jsstring;
  i_messageText : jsstring;
  i_delay : Z;
  i_isActive : bool
}.

Record WhatsappSession := {
  id : nat;
  sessionId : jsstring;
  phoneNumber : jsstring;
  connectionType : jsstring;
  phoneId : option jsstring;
  targets : jsstring;
  messagePath : jsstring;
  messageText : jsstring;
  delay : Z;
  messageCount : nat;
  isActive : bool;
  createdAt : Z;
  updatedAt : Z
}.

End Schema.

(** ** storage.ts: class MemStorage (session methods) *)
Module MemStorage.
Import Schema.

(** The [sessions] map; the [users] and [fileUploads] maps are not
    touched by any session method. *)
Record t := { sessions : gmap jsstring WhatsappSession }.

Definition empty : t := {| sessions := ∅ |}.

(** [x || null] on an optional string. *)
Definition orNull (x : option jsstring) : option jsstring :=
  match x with
  | Some s => if JS.truthy s then Some s else None
  | None => None
  end.

Definition createSession (now : Z) (sessionData : InsertWhatsappSession)
    (st : t) : WhatsappSession * t :=
  let session :=
    {| id := size (sessions st) + 1;
       sessionId := i_sessionId sessionData;
       phoneNumber := i_phoneNumber sessionData;
       connectionType := i_connectionType sessionData;
       phoneId := orNull (i_phoneId sessionData);
       targets := i_targets sessionData;
       messagePath := i_messagePath sessionData;
       messageText := i_messageText sessionData;
       delay := if Z.eqb (i_delay sessionData) 0 then 5%Z
                else i_delay sessionData;
       messageCount := 0;
       isActive := false;
       createdAt := now;
       updatedAt := now |} in
  (session, {| sessions := <[sessionId session := session]> (sessions st) |}).

Definition getSessionById (sid : jsstring) (st : t) : option WhatsappSession :=
  sessions st !! sid.

Definition withStatus (b : bool) (now : Z) (s : WhatsappSession) :=
  {| id := id s; sessionId := sessionId s; phoneNumber := phoneNumber s;
     connectionType := connectionType s; phoneId := phoneId s;
     targets := targets s; messagePath := messagePath s;
     messageText := messageText s; delay := delay s;
     messageCount := messageCount s;
     isActive := b;
     createdAt := createdAt s;
     updatedAt := now |}.

Definition updateSessionStatus (now : Z) (sid : jsstring) (b : bool)
    (st : t) : option WhatsappSession * t :=
  match sessions st !! sid with
  | None => (None, st)
  | Some session =>
      let updatedSession := withStatus b now session in
      (Some updatedSession,
       {| sessions := <[sid := updatedSession]> (sessions st) |})
  end.

Definition withCount (n : nat) (now : Z) (s : WhatsappSession) :=
  {| id := id s; sessionId := sessionId s; phoneNumber := phoneNumber s;
     connectionType := connectionType s; phoneId := phoneId s;
     targets := targets s; messagePath := messagePath s;
     messageText := messageText s; delay := delay s;
     messageCount := n;
     isActive := isActive s;
     createdAt := createdAt s;
     updatedAt := now |}.

Definition incrementMessageCount (now : Z) (sid : jsstring) (st : t)
    : nat * t :=
  match sessions st !! sid with
  | None => (0, st)
  | Some session =>
      let newCount := messageCount session + 1 in
      let updatedSession := withCount newCount now session in
      (newCount, {| sessions := <[sid := updatedSession]> (sessions st) |})
  end.

End MemStorage.

(** ** whatsapp.ts: class WhatsAppManager *)
Module WhatsAppManager.

(** A delivery client: the simulated object literal of the development
    branches, or a whatsapp-web.js [Client]. *)
Record Client := { clientId : nat; simulated : bool }.

(** The value type of the [activeSessions] map. *)
Record SessionData := {
  client : Client;
  interval : option nat;
  targets : list jsstring;
  messages : list jsstring;
  delay : Z;
  messageIndex : nat;
  targetIndex : nat
}.

(** An armed [setInterval] timer: the session id its callback closes
    over and its period in milliseconds. *)
Record Timer := { callbackSession : jsstring; period : Z }.

(** One [client.sendMessage(to, message)] call. *)
Record Delivery := {
  via : Client;
  to : jsstring;
  body : option jsstring
}.

Record World := {
  storage : MemStorage.t;
  activeSessions : gmap jsstring SessionData;
  timers : gmap nat Timer;
  nextTimer : nat;
  clientsCreated : nat;
  destroyed : list nat;
  outbox : list Delivery
}.

(** [new WhatsAppManager(storage)] in a fresh process. *)
Definition init : World :=
  {| storage := MemStorage.empty; activeSessions := ∅; timers := ∅;
     nextTimer := 0; clientsCreated := 0; destroyed := []; outbox := [] |}.

(** What the process environment answers during one call. *)
Record Env := {
  isProduction : bool;
  readFile : jsstring → option jsstring;
  credsValid : jsstring → bool;
  libraryOk : bool;
  initializeOk : bool
}.

Definition setStorage (st : MemStorage.t) (w : World) : World :=
  {| storage := st; activeSessions := activeSessions w;
     timers := timers w; nextTimer := nextTimer w;
     clientsCreated := clientsCreated w; destroyed := destroyed w;
     outbox := outbox w |}.

Definition setActiveSessions (m : gmap jsstring SessionData) (w : World)
    : World :=
  {| storage := storage w; activeSessions := m;
     timers := timers w; nextTimer := nextTimer w;
     clientsCreated := clientsCreated w; destroyed := destroyed w;
     outbox := outbox w |}.

(** [setInterval(cb, ms)]: a fresh handle is armed, with the period
    Node gives it. *)
Definition setInterval (sid : jsstring) (ms : Z) (w : World) : nat * World :=
  (nextTimer w,
   {| storage := storage w; activeSessions := activeSessions w;
      timers := <[nextTimer w := {| callbackSession := sid;
                                    period := JS.timerDelay ms |}]>
                  (timers w);
      nextTimer := S (nextTimer w);
      clientsCreated := clientsCreated w; destroyed := destroyed w;
      outbox := outbox w |}).

Definition clearInterval (h : nat) (w : World) : World :=
  {| storage := storage w; activeSessions := activeSessions w;
     timers := delete h (timers w); nextTimer := nextTimer w;
     clientsCreated := clientsCreated w; destroyed := destroyed w;
     outbox := outbox w |}.

(** Construction of a client object ([new Client(...)] or the
    simulated literal). *)
Definition newClient (sim : bool) (w : World) : Client * World :=
  ({| clientId := clientsCreated w; simulated := sim |},
   {| storage := storage w; activeSessions := activeSessions w;
      timers := timers w; nextTimer := nextTimer w;
      clientsCreated := S (clientsCreated w); destroyed := destroyed w;
      outbox := outbox w |}).

(** [client.destroy()] was called. *)
Definition destroyClient (c : Client) (w : World) : World :=
  {| storage := storage w; activeSessions := activeSessions w;
     timers := timers w; nextTimer := nextTimer w;
     clientsCreated := clientsCreated w;
     destroyed := destroyed w ++ [clientId c];
     outbox := outbox w |}.

(** [client.sendMessage(to, message)] was called. *)
Definition postDelivery (d : Delivery) (w : World) : World :=
  {| storage := storage w; activeSessions := activeSessions w;
     timers := timers w; nextTimer := nextTimer w;
     clientsCreated := clientsCreated w; destroyed := destroyed w;
     outbox := outbox w ++ [d] |}.

(** The simulated client resolves every call; a real client resolves
    or rejects as the transport decides ([realOk]). *)
Definition settles (c : Client) (realOk : bool) : bool :=
  simulated c || realOk.

(** The real-client path shared by the two production branches:
    [initWhatsAppLibrary], [new Client], [client.initialize()]. *)
Definition realClient (env : Env) (w : World) : option Client * World :=
  if libraryOk env then
    let '(c, w1) := newClient false w in
    if initializeOk env then (Some c, w1) else (None, w1)
  else (None, w).

(** [createWhatsAppClient]; [None] is a thrown error. *)
Definition createWhatsAppClient (env : Env) (session : Schema.WhatsappSession)
    (w : World) : option Client * World :=
  if decide (Schema.connectionType session = JS.str "creds") then
    if credsValid env (Schema.sessionId session) then
      if isProduction env then realClient env w
      else let '(c, w1) := newClient true w in (Some c, w1)
    else (None, w)
  else if decide (Schema.connectionType session = JS.str "phoneId") then
    match Schema.phoneId session with
    | Some (_ :: _) =>
        if isProduction env then
          if credsValid env (Schema.sessionId session) then realClient env w
          else (None, w)
        else let '(c, w1) := newClient true w in (Some c, w1)
    | _ => (None, w)
    end
  else (None, w).

(** [await client.destroy()]: the call is made; the flag tells whether
    its promise resolved. *)
Definition destroy (c : Client) (realOk : bool) (w : World) : bool * World :=
  (settles c realOk, destroyClient c w).

(** [stopSession]; [destroyOk] is the transport's answer to a real
    client's [destroy()]. *)
Definition stopSession (destroyOk : bool) (sid : jsstring) (w : World)
    : bool * World :=
  match activeSessions w !! sid with
  | None => (false, w)
  | Some sessionData =>
      let w1 := match interval sessionData with
                | Some h => clearInterval h w
                | None => w
                end in
      let remove w' :=
        (true, setActiveSessions (delete sid (activeSessions w')) w') in
      match destroy (client sessionData) destroyOk w1 with
      | (true, w2) => remove w2
      | (false, w2) => remove w2 (* inner catch: the error is logged *)
      end
  end.

(** [session.targets.split(',').map(t => t.trim()).filter(Boolean)] *)
Definition parseTargets (s : jsstring) : list jsstring :=
  List.filter JS.truthy (map JS.trim (JS.split JS.comma s)).

(** [text.split('\n').filter(Boolean)] *)
Definition parseMessages (s : jsstring) : list jsstring :=
  List.filter JS.truthy (JS.split JS.newline s).

(** The message list of [startSession]; [None] is the failed
    [fs.readFile]. *)
Definition resolveMessages (env : Env) (session : Schema.WhatsappSession)
    : option (list jsstring) :=
  if JS.truthy (Schema.messageText session) then
    Some (parseMessages (Schema.messageText session))
  else
    match readFile env (Schema.messagePath session) with
    | Some messageContent => Some (parseMessages messageContent)
    | None => None
    end.

(** [if (this.activeSessions.has(sid)) await this.stopSession(sid)] *)
Definition stopIfRunning (destroyOk : bool) (sid : jsstring) (w : World)
    : World :=
  match activeSessions w !! sid with
  | Some _ => snd (stopSession destroyOk sid w)
  | None => w
  end.

Definition startSession (env : Env) (destroyOk : bool)
    (session : Schema.WhatsappSession) (w : World) : bool * World :=
  let sid := Schema.sessionId session in
  let w0 := stopIfRunning destroyOk sid w in
  match parseTargets (Schema.targets session) with
  | [] => (false, w0)
  | (_ :: _) as targets =>
      match resolveMessages env session with
      | None => (false, w0)
      | Some [] => (false, w0)
      | Some ((_ :: _) as messages) =>
          match createWhatsAppClient env session w0 with
          | (None, w1) => (false, w1)
          | (Some client, w1) =>
              let '(h, w2) :=
                setInterval sid (Schema.delay session * 1000) w1 in
              (true,
               setActiveSessions
                 (<[sid := {| client := client; interval := Some h;
                              targets := targets; messages := messages;
                              delay := Schema.delay session;
                              messageIndex := 0; targetIndex := 0 |}]>
                    (activeSessions w2)) w2)
          end
      end
  end.

(** *** sendNextMessage

    The async function is cut at its two [await]s.  The locals that
    survive a suspension are the session id and the [sessionData]
    object read at entry. *)
Record InFlight := { inSession : jsstring; inData : SessionData }.

(** [target.includes('@c.us') ? target : target + '@c.us'] *)
Definition formatTarget (target : jsstring) : jsstring :=
  if JS.includes (JS.str "@c.us") target then target
  else target ++ JS.str "@c.us".

(** Entry up to [await client.sendMessage(...)].  [None]: the call has
    returned (no entry, or [target] is undefined and [target.includes]
    threw into the catch). *)
Definition sendNextMessage_enter (sid : jsstring) (w : World)
    : option InFlight * World :=
  match activeSessions w !! sid with
  | None => (None, w)
  | Some sessionData =>
      match targets sessionData !! targetIndex sessionData with
      | None => (None, w)
      | Some target =>
          (Some {| inSession := sid; inData := sessionData |},
           postDelivery
             {| via := client sessionData; to := formatTarget target;
                body := messages sessionData !! messageIndex sessionData |}
             w)
      end
  end.

(** The send has settled.  A rejection lands in the catch; otherwise
    [storage.incrementMessageCount] runs and the call suspends on its
    promise. *)
Definition sendNextMessage_sent (realOk : bool) (now : Z) (f : InFlight)
    (w : World) : option InFlight * World :=
  if settles (client (inData f)) realOk then
    (Some f,
     setStorage
       (snd (MemStorage.incrementMessageCount now (inSession f) (storage w)))
       w)
  else (None, w).

(** [(messageIndex + 1) % messages.length].  [startSession] registers
    no empty list and the step copies the lists, so the modulus is
    never 0 on a live entry (where JavaScript would give NaN). *)
Definition nextMessageIndex (sd : SessionData) : nat :=
  (messageIndex sd + 1) mod length (messages sd).

Definition nextTargetIndex (sd : SessionData) : nat :=
  if Nat.eqb (nextMessageIndex sd) 0
  then (targetIndex sd + 1) mod length (targets sd)
  else targetIndex sd.

(** [{...sessionData, messageIndex, targetIndex}] *)
Definition advance (sd : SessionData) : SessionData :=
  {| client := client sd; interval := interval sd;
     targets := targets sd; messages := messages sd; delay := delay sd;
     messageIndex := nextMessageIndex sd;
     targetIndex := nextTargetIndex sd |}.

(** After the counter update: the cursor computation and
    [this.activeSessions.set(sessionId, ...)]. *)
Definition sendNextMessage_store (f : InFlight) (w : World) : World :=
  setActiveSessions
    (<[inSession f := advance (inData f)]> (activeSessions w)) w.

(** A dispatch step that runs from entry to return with nothing else
    scheduled in between. *)
Definition sendNextMessage (realOk : bool) (now : Z) (sid : jsstring)
    (w : World) : World :=
  match sendNextMessage_enter sid w with
  | (None, w1) => w1
  | (Some f, w1) =>
      match sendNextMessage_sent realOk now f w1 with
      | (None, w2) => w2
      | (Some f', w2) => sendNextMessage_store f' w2
      end
  end.

End WhatsAppManager.

(** ** routes.ts: the session start and stop handlers *)
Module Routes.
Import WhatsAppManager.

(** The JSON body of POST /api/whatsapp/session/start, with the
    optional fields of the zod schema as options. *)
Record StartBody := {
  b_phoneNumber : jsstring;
  b_phoneId : option jsstring;
  b_targets : jsstring;
  b_messagePath : jsstring;
  b_messageText : option jsstring;
  b_delay : option Z;
  b_connectionType : jsstring
}.

Record Response := {
  status : nat;
  success : bool;
  r_sessionId : option jsstring
}.

(** [sessionSchema.safeParse(req.body).success] *)
Definition valid (b : StartBody) : bool :=
  JS.truthy (b_phoneNumber b) && JS.truthy (b_targets b)
  && JS.truthy (b_messagePath b)
  && match b_delay b with Some d => (1 <=? d)%Z | None => true end
  && (bool_decide (b_connectionType b = JS.str "creds")
      || bool_decide (b_connectionType b = JS.str "phoneId")).

(** The argument of [storage.createSession] built by the handler;
    [nanoid] is the id the generator returned. *)
Definition startRecord (nanoid : jsstring) (b : StartBody)
    : Schema.InsertWhatsappSession :=
  {| Schema.i_sessionId := nanoid;
     Schema.i_phoneNumber := b_phoneNumber b;
     Schema.i_connectionType := b_connectionType b;
     Schema.i_phoneId := b_phoneId b;
     Schema.i_targets := b_targets b;
     Schema.i_messagePath := b_messagePath b;
     Schema.i_messageText := default [] (b_messageText b);
     Schema.i_delay := default 10%Z (b_delay b);
     Schema.i_isActive := true |}.

Definition startHandler (env : Env) (destroyOk : bool) (now : Z)
    (nanoid : jsstring) (b : StartBody) (w : World) : Response * World :=
  if valid b then
    let '(session, st1) :=
      MemStorage.createSession now (startRecord nanoid b) (storage w) in
    match startSession env destroyOk session (setStorage st1 w) with
    | (false, w1) =>
        ({| status := 500; success := false; r_sessionId := None |},
         setStorage
           (snd (MemStorage.updateSessionStatus now nanoid false (storage w1)))
           w1)
    | (true, w1) =>
        ({| status := 200; success := true; r_sessionId := Some nanoid |}, w1)
    end
  else ({| status := 400; success := false; r_sessionId := None |}, w).

(** POST /api/whatsapp/session/stop with [req.body.sessionId]. *)
Definition stopHandler (destroyOk : bool) (now : Z)
    (sessionId : option jsstring) (w : World) : Response * World :=
  match sessionId with
  | Some ((_ :: _) as sid) =>
      match MemStorage.getSessionById sid (storage w) with
      | None => ({| status := 404; success := false; r_sessionId := None |}, w)
      | Some _ =>
          match stopSession destroyOk sid w with
          | (false, w1) =>
              ({| status := 500; success := false; r_sessionId := None |}, w1)
          | (true, w1) =>
              ({| status := 200; success := true; r_sessionId := None |},
               setStorage
                 (snd (MemStorage.updateSessionStatus now sid false
                         (storage w1)))
                 w1)
          end
      end
  | _ => ({| status := 400; success := false; r_sessionId := None |}, w)
  end.

End Routes.

(** ** Executions and state predicates *)
Module Run.
Import WhatsAppManager.

(** The (target, message) pair that a dispatch step entered now would
    read. *)
Definition visited (sid : jsstring) (w : World)
    : option (jsstring * jsstring) :=
  match activeSessions w !! sid with
  | None => None
  | Some sd =>
      match targets sd !! targetIndex sd, messages sd !! messageIndex sd with
      | Some t, Some m => Some (t, m)
      | _, _ => None
      end
  end.

(** Timer firings of one session, each with the transport's answer to
    the send and the clock reading, every step returning before the
    next one is entered. *)
Definition dispatch (sid : jsstring) (ticks : list (bool * Z)) (w : World)
    : World :=
  foldl (λ w' tick, sendNextMessage tick.1 tick.2 sid w') w ticks.

(** How many of the ticks had a send that resolved. *)
Definition successes (c : Client) (ticks : list (bool * Z)) : nat :=
  length (List.filter (λ tick : bool * Z, settles c tick.1) ticks).

(** The entry [sd] with its cursor pair moved to where [p] advances
    from the origin leave it. *)
Definition seek (p : nat) (sd : SessionData) : SessionData :=
  {| client := client sd; interval := interval sd;
     targets := targets sd; messages := messages sd; delay := delay sd;
     messageIndex := p mod length (messages sd);
     targetIndex := (p / length (messages sd)) mod length (targets sd) |}.

(** The [sendMessage] call a step makes for target [t] and message
    [m]. *)
Definition delivery (sd : SessionData) (t : jsstring) (m : option jsstring)
    : Delivery :=
  {| via := client sd; to := formatTarget t; body := m |}.

(** The handles of the armed timers whose callback dispatches for
    [sid]. *)
Definition liveTimers (sid : jsstring) (w : World) : gset nat :=
  dom (filter (λ p : nat * Timer, callbackSession p.2 = sid) (timers w)).

Definition messageCountOf (sid : jsstring) (w : World) : option nat :=
  Schema.messageCount <$> MemStorage.sessions (storage w) !! sid.

Definition isActiveOf (sid : jsstring) (w : World) : option bool :=
  Schema.isActive <$> MemStorage.sessions (storage w) !! sid.

(** Calls on the manager and on the routes, each run to completion. *)
Inductive Op :=
| Start (env : Env) (destroyOk : bool) (session : Schema.WhatsappSession)
| Stop (destroyOk : bool) (sid : jsstring)
| Tick (realOk : bool) (now : Z) (sid : jsstring)
| PostStart (env : Env) (destroyOk : bool) (now : Z) (nanoid : jsstring)
    (b : Routes.StartBody)
| PostStop (destroyOk : bool) (now : Z) (sessionId : option jsstring).

Definition perform (o : Op) (w : World) : World :=
  match o with
  | Start env d session => snd (startSession env d session w)
  | Stop d sid => snd (stopSession d sid w)
  | Tick ok now sid => sendNextMessage ok now sid w
  | PostStart env d now nanoid b =>
      snd (Routes.startHandler env d now nanoid b w)
  | PostStop d now sid => snd (Routes.stopHandler d now sid w)
  end.

(** The worlds a fresh manager reaches by completed calls. *)
Inductive reachable : World → Prop :=
| reachable_init : reachable init
| reachable_perform o w : reachable w → reachable (perform o w).

(** Every live entry has both cursors inside its lists. *)
Definition cursorsInRange (w : World) : Prop :=
  ∀ sid sd, activeSessions w !! sid = Some sd →
    messageIndex sd < length (messages sd) ∧
    targetIndex sd < length (targets sd).

(** Where an entry found after a call can come from: it was there
    before, or it is the advance of the entry that was there, or it
    was registered by a start. *)
Definition entryOrigin (w : World) (sid : jsstring) (sd' : SessionData)
    : Prop :=
  activeSessions w !! sid = Some sd' ∨
  (∃ sd, activeSessions w !! sid = Some sd ∧
         targetIndex sd < length (targets sd) ∧ sd' = advance sd) ∨
  (messageIndex sd' = 0 ∧ targetIndex sd' = 0 ∧
   targets sd' ≠ [] ∧ messages sd' ≠ []).

(** Armed timers and live entries correspond one to one. *)
Definition timersConsistent (w : World) : Prop :=
  (∀ h tm, timers w !! h = Some tm →
     h < nextTimer w ∧
     ∃ sd, activeSessions w !! callbackSession tm = Some sd ∧
           interval sd = Some h) ∧
  (∀ sid sd, activeSessions w !! sid = Some sd →
     ∃ h tm, interval sd = Some h ∧ timers w !! h = Some tm ∧
             callbackSession tm = sid).

End Run.

(** ** Worked inputs *)
Module Ex.
Import WhatsAppManager.

Definition development : Env :=
  {| isProduction := false; readFile := λ _, None;
     credsValid := λ _, true; libraryOk := true; initializeOk := true |}.

Definition production : Env :=
  {| isProduction := true; readFile := λ _, None;
     credsValid := λ _, true; libraryOk := true; initializeOk := true |}.

Definition s1 : jsstring := JS.str "s1".

(** The record [createSession] returns for session id s1 with the
    given targets and inline message text. *)
Definition session (targets messageText : string) : Schema.WhatsappSession :=
  {| Schema.id := 1; Schema.sessionId := s1;
     Schema.phoneNumber := JS.str "40700000000";
     Schema.connectionType := JS.str "creds"; Schema.phoneId := None;
     Schema.targets := JS.str targets;
     Schema.messagePath := JS.str "uploads/messages/m.txt";
     Schema.messageText := JS.str messageText;
     Schema.delay := 1; Schema.messageCount := 0;
     Schema.isActive := false; Schema.createdAt := 0;
     Schema.updatedAt := 0 |}.

(** targets "a,b", messages "hi\nbye". *)
Definition ab_hibye : Schema.WhatsappSession :=
  session "a,b" (String "h" (String "i" (String "010" "bye"))).

Definition body : Routes.StartBody :=
  {| Routes.b_phoneNumber := JS.str "40700000000";
     Routes.b_phoneId := None;
     Routes.b_targets := JS.str "a,b";
     Routes.b_messagePath := JS.str "uploads/messages/m.txt";
     Routes.b_messageText := Some (JS.str "hi");
     Routes.b_delay := Some 1%Z;
     Routes.b_connectionType := JS.str "creds" |}.

(** A development process in which no session has a credentials file,
    as for an id the start route has just generated. *)
Definition noCreds : Env :=
  {| isProduction := false; readFile := λ _, None;
     credsValid := λ _, false; libraryOk := true; initializeOk := true |}.

(** A start request that connects by phone id. *)
Definition phoneBody : Routes.StartBody :=
  {| Routes.b_phoneNumber := JS.str "40700000000";
     Routes.b_phoneId := Some (JS.str "15550001");
     Routes.b_targets := JS.str "a,b";
     Routes.b_messagePath := JS.str "uploads/messages/m.txt";
     Routes.b_messageText := Some (JS.str "hi");
     Routes.b_delay := Some 1%Z;
     Routes.b_connectionType := JS.str "phoneId" |}.

End Ex.

(** ** JavaScript [Map<number, V>] in insertion order

    The user and upload maps are searched with
    [Array.from(map.values()).find(...)], which walks the entries in
    the order their keys were first set; so here the map is the list
    of its entries in that order. *)
Module JSMap.
Section Entries.
Context {V : Type}.

Fixpoint get (k : nat) (m : list (nat * V)) : option V :=
  match m with
  | [] => None
  | (k', v) :: r => if Nat.eqb k' k then Some v else get k r
  end.

(** [map.set(k, v)]: an existing key keeps its place, a new key goes
    last. *)
Fixpoint set (k : nat) (v : V) (m : list (nat * V)) : list (nat * V) :=
  match m with
  | [] => [(k, v)]
  | (k', v') :: r =>
      if Nat.eqb k' k then (k, v) :: r else (k', v') :: set k v r
  end.

Definition values (m : list (nat * V)) : list V := map snd m.

Definition keys (m : list (nat * V)) : list nat := map fst m.

End Entries.
End JSMap.

(** ** storage.ts: class MemStorage (user methods)

    [InsertUser] and [User] come from @shared/schema, which is not
    among the sources; the only column the code reads is [username], so
    the remaining columns are a value of an arbitrary type [A]. *)
Module Users.
Section Columns.
Context {A : Type}.

Record InsertUser := { i_username : jsstring; i_columns : A }.

Record User := { id : nat; username : jsstring; columns : A }.

Record t := { users : list (nat * User); userCurrentId : nat }.

Definition empty : t := {| users := []; userCurrentId := 1 |}.

Definition getUser (id : nat) (st : t) : option User :=
  JSMap.get id (users st).

Definition getUserByUsername (name : jsstring) (st : t) : option User :=
  List.find (λ user, bool_decide (username user = name))
    (JSMap.values (users st)).

Definition createUser (insertUser : InsertUser) (st : t) : User * t :=
  let id := userCurrentId st in
  let user := {| id := id; username := i_username insertUser;
                 columns := i_columns insertUser |} in
  (user, {| users := JSMap.set id user (users st);
            userCurrentId := id + 1 |}).

(** The keys are 1, 2, ... up to the counter, in that order, and each
    user is stored under its own id. *)
Definition wellKeyed (st : t) : Prop :=
  1 ≤ userCurrentId st ∧
  JSMap.keys (users st) = seq 1 (userCurrentId st - 1) ∧
  Forall (λ p : nat * User, id p.2 = p.1) (users st).

Inductive reachable : t → Prop :=
| reachable_empty : reachable empty
| reachable_create insertUser st :
    reachable st → reachable (snd (createUser insertUser st)).

End Columns.
Arguments InsertUser : clear implicits.
Arguments User : clear implicits.
Arguments t : clear implicits.
End Users.

(** ** storage.ts: class MemStorage (file upload methods)

    [InsertFileUpload] has the four fields the upload route passes. *)
Module FileUploads.

Record InsertFileUpload := {
  i_originalName : jsstring;
  i_storagePath : jsstring;
  i_fileType : jsstring;
  i_fileSize : nat
}.

Record FileUpload := {
  originalName : jsstring;
  storagePath : jsstring;
  fileType : jsstring;
  fileSize : nat;
  id : nat;
  createdAt : Z
}.

Record t := { fileUploads : list (nat * FileUpload); fileUploadCurrentId : nat }.

Definition empty : t := {| fileUploads := []; fileUploadCurrentId := 1 |}.

Definition saveFileUpload (now : Z) (fileUpload : InsertFileUpload) (st : t)
    : FileUpload * t :=
  let id := fileUploadCurrentId st in
  let upload := {| originalName := i_originalName fileUpload;
                   storagePath := i_storagePath fileUpload;
                   fileType := i_fileType fileUpload;
                   fileSize := i_fileSize fileUpload;
                   id := id; createdAt := now |} in
  (upload, {| fileUploads := JSMap.set id upload (fileUploads st);
              fileUploadCurrentId := id + 1 |}).

Definition getFileUploadByPath (path : jsstring) (st : t) : option FileUpload :=
  List.find (λ upload, bool_decide (storagePath upload = path))
    (JSMap.values (fileUploads st)).

(** The keys are 1, 2, ... up to the counter, in that order, and each
    upload is stored under its own id. *)
Definition wellKeyed (st : t) : Prop :=
  1 ≤ fileUploadCurrentId st ∧
  JSMap.keys (fileUploads st) = seq 1 (fileUploadCurrentId st - 1) ∧
  Forall (λ p : nat * FileUpload, id p.2 = p.1) (fileUploads st).

Inductive reachable : t → Prop :=
| reachable_empty : reachable empty
| reachable_save now fileUpload st :
    reachable st → reachable (snd (saveFileUpload now fileUpload st)).

End FileUploads.

(** ** routes.ts: the upload and status handlers *)
Module MoreRoutes.

(** [req.file] as multer leaves it. *)
Record UploadedFile := {
  originalname : jsstring;
  path : jsstring;
  size : nat
}.

Record UploadResponse := {
  u_status : nat;
  u_success : bool;
  u_filePath : option jsstring
}.

(** POST /api/whatsapp/upload, after multer has stored the file;
    [type] is [req.body.type]. *)
Definition uploadHandler (now : Z) (file : option UploadedFile)
    (type : option jsstring) (st : FileUploads.t)
    : UploadResponse * FileUploads.t :=
  match file, type with
  | Some f, Some ((_ :: _) as fileType) =>
      let '(_, st1) :=
        FileUploads.saveFileUpload now
          {| FileUploads.i_originalName := originalname f;
             FileUploads.i_storagePath := path f;
             FileUploads.i_fileType := fileType;
             FileUploads.i_fileSize := size f |} st in
      ({| u_status := 200; u_success := true; u_filePath := Some (path f) |},
       st1)
  | _, _ =>
      ({| u_status := 400; u_success := false; u_filePath := None |}, st)
  end.

(** A value of [req.query]: absent, a string, or something else (an
    array or a nested object). *)
Inductive QueryValue :=
| Missing
| Str (s : jsstring)
| NotString.

Record StatusBody := {
  s_isActive : bool;
  s_messageCount : nat;
  s_startTime : Z;
  s_connectionMethod : jsstring
}.

(** GET /api/whatsapp/session/status: the status code and, with 200,
    the reported fields. *)
Definition statusHandler (sessionId : QueryValue) (w : WhatsAppManager.World)
    : nat * option StatusBody :=
  match sessionId with
  | Str ((_ :: _) as sid) =>
      match MemStorage.getSessionById sid (WhatsAppManager.storage w) with
      | None => (404, None)
      | Some session =>
          (200, Some {| s_isActive := Schema.isActive session;
                        s_messageCount := Schema.messageCount session;
                        s_startTime := Schema.createdAt session;
                        s_connectionMethod := Schema.connectionType session |})
      end
  | _ => (400, None)
  end.

End MoreRoutes.

(** ** Notions used to state the further properties *)
Module Text.

(** [parts.join(sep)] for a one-character separator. *)
Fixpoint join (sep : N) (parts : list jsstring) : jsstring :=
  match parts with
  | [] => []
  | [p] => p
  | p :: rest => p ++ sep :: join sep rest
  end.

(** Whether the first code unit is white space. *)
Definition startsBlank (s : jsstring) : bool :=
  match s with
  | [] => false
  | c :: _ => JS.isWhiteSpace c
  end.

(** No white space at either end. *)
Definition isTrimmed (s : jsstring) : bool :=
  negb (startsBlank s) && negb (startsBlank (rev s)).

End Text.

Module StoreRun.

(** The two updates of a persisted record. *)
Inductive Update :=
| Increment (now : Z) (sid : jsstring)
| SetStatus (now : Z) (sid : jsstring) (isActive : bool).

Definition apply (u : Update) (st : MemStorage.t) : MemStorage.t :=
  match u with
  | Increment now sid => snd (MemStorage.incrementMessageCount now sid st)
  | SetStatus now sid b => snd (MemStorage.updateSessionStatus now sid b st)
  end.

Definition run (us : list Update) (st : MemStorage.t) : MemStorage.t :=
  foldl (λ st' u, apply u st') st us.

(** How many of the updates increment the counter of [sid]. *)
Fixpoint increments (sid : jsstring) (us : list Update) : nat :=
  match us with
  | [] => 0
  | Increment _ sid' :: r =>
      (if decide (sid' = sid) then 1 else 0) + increments sid r
  | SetStatus _ _ _ :: r => increments sid r
  end.

(** The flag the last status update of [sid] wrote, [b0] if there is
    none. *)
Fixpoint lastStatus (sid : jsstring) (b0 : bool) (us : list Update) : bool :=
  match us with
  | [] => b0
  | SetStatus _ sid' b :: r =>
      lastStatus sid (if decide (sid' = sid) then b else b0) r
  | Increment _ _ :: r => lastStatus sid b0 r
  end.

(** Row ids lie between 1 and the number of rows. *)
Definition idsBounded (st : MemStorage.t) : Prop :=
  ∀ sid r, MemStorage.sessions st !! sid = Some r →
    1 ≤ Schema.id r ≤ size (MemStorage.sessions st).

(** No two rows share a row id. *)
Definition idsDistinct (st : MemStorage.t) : Prop :=
  ∀ sid1 sid2 r1 r2,
    MemStorage.sessions st !! sid1 = Some r1 →
    MemStorage.sessions st !! sid2 = Some r2 →
    Schema.id r1 = Schema.id r2 → sid1 = sid2.

End StoreRun.

Module Sessions.
Import WhatsAppManager Run.

(** Every comma-separated entry of [s] is white space only. *)
Definition blankEntries (s : jsstring) : Prop :=
  ∀ e, e ∈ JS.split JS.comma s → forallb JS.isWhiteSpace e = true.

(** Every line of [text] is empty. *)
Definition emptyLines (text : jsstring) : Prop :=
  ∀ l, l ∈ JS.split JS.newline text → l = [].

(** The text [startSession] takes its messages from: the inline text
    when it is not empty, else the content of the message file; [None]
    when that file cannot be read. *)
Definition messageSource (env : Env) (session : Schema.WhatsappSession)
    : option jsstring :=
  if JS.truthy (Schema.messageText session)
  then Some (Schema.messageText session)
  else readFile env (Schema.messagePath session).

(** Nothing that belongs to session [sid] differs between [w] and
    [w']: its table entry, its armed timers, its persisted record. *)
Definition untouched (sid : jsstring) (w w' : World) : Prop :=
  activeSessions w' !! sid = activeSessions w !! sid ∧
  liveTimers sid w' = liveTimers sid w ∧
  MemStorage.sessions (storage w') !! sid
    = MemStorage.sessions (storage w) !! sid.

(** The clients held by live entries were constructed, are pairwise
    different and have not been destroyed; no client was destroyed
    twice. *)
Definition clientsSound (w : World) : Prop :=
  (∀ sid sd, activeSessions w !! sid = Some sd →
     clientId (client sd) < clientsCreated w ∧
     clientId (client sd) ∉ destroyed w) ∧
  (∀ sid1 sid2 sd1 sd2,
     activeSessions w !! sid1 = Some sd1 →
     activeSessions w !! sid2 = Some sd2 →
     clientId (client sd1) = clientId (client sd2) → sid1 = sid2) ∧
  NoDup (destroyed w) ∧
  (∀ c, c ∈ destroyed w → c < clientsCreated w).

(** The session id a completed call works on. *)
Definition subject (o : Op) : option jsstring :=
  match o with
  | Start _ _ session => Some (Schema.sessionId session)
  | Stop _ sid => Some sid
  | Tick _ _ sid => Some sid
  | PostStart _ _ _ nanoid _ => Some nanoid
  | PostStop _ _ sessionId => sessionId
  end.

(** Whether every tick's send resolves for client [c]. *)
Definition allResolve (c : Client) (ticks : list (bool * Z)) : Prop :=
  ∀ tick, tick ∈ ticks → settles c tick.1 = true.

End Sessions.

(** ** The manager's calls cut at their awaits, and their interleavings *)
Module Async.
Import WhatsAppManager Run.

(** [stopSession] up to [await sessionData.client.destroy()]: the
    interval is cleared and [destroy()] is called.  [None]: there is no
    entry and the call has returned [false]. *)
Definition stopSession_enter (sid : jsstring) (w : World) : option World :=
  match activeSessions w !! sid with
  | None => None
  | Some sessionData =>
      Some (destroyClient (client sessionData)
              match interval sessionData with
              | Some h => clearInterval h w
              | None => w
              end)
  end.

(** [stopSession] once the promise of [destroy()] has settled, either
    way: [this.activeSessions.delete(sessionId)], then [return true]. *)
Definition stopSession_finish (sid : jsstring) (w : World) : World :=
  setActiveSessions (delete sid (activeSessions w)) w.

(** [startSession] from the parsing of the targets up to
    [await this.createWhatsAppClient(session)]: the two lists, or
    [None] where the call returns [false]. *)
Definition startSession_lists (env : Env) (session : Schema.WhatsappSession)
    : option (list jsstring * list jsstring) :=
  match parseTargets (Schema.targets session) with
  | [] => None
  | (_ :: _) as targets =>
      match resolveMessages env session with
      | Some ((_ :: _) as messages) => Some (targets, messages)
      | _ => None
      end
  end.

(** [startSession] once the client has arrived: [setInterval] and
    [this.activeSessions.set], then [return true]. *)
Definition startSession_register (session : Schema.WhatsappSession)
    (client : Client) (targets messages : list jsstring) (w : World) : World :=
  let sid := Schema.sessionId session in
  let '(h, w2) := setInterval sid (Schema.delay session * 1000) w in
  setActiveSessions
    (<[sid := {| client := client; interval := Some h;
                 targets := targets; messages := messages;
                 delay := Schema.delay session;
                 messageIndex := 0; targetIndex := 0 |}]>
       (activeSessions w2)) w2.

(** A call that is suspended at an await, with the locals it resumes
    with. *)
Inductive Thread :=
| StartAwaitsStop (env : Env) (session : Schema.WhatsappSession)
| StartAwaitsClient (env : Env) (session : Schema.WhatsappSession)
    (targets messages : list jsstring)
| StartHasClient (session : Schema.WhatsappSession) (client : Client)
    (targets messages : list jsstring)
| StopAwaitsDestroy (sid : jsstring)
| StepAwaitsSend (f : InFlight)
| StepAwaitsCount (f : InFlight).

(** The manager's world and the suspended calls, each under the name
    it was given when it was made. *)
Record State := { world : World; pool : gmap nat Thread }.

Definition initial : State := {| world := init; pool := ∅ |}.

(** What the event loop runs next: a call of [startSession] or
    [stopSession] from outside, an armed timer firing its callback, or
    the continuation of a suspended call.  [i] names the call; [ok] and
    [now] are the outcome of the awaited promise and the clock at the
    resumption. *)
Inductive Event :=
| CallStart (i : nat) (env : Env) (session : Schema.WhatsappSession)
| CallStop (i : nat) (sid : jsstring)
| Fire (i : nat) (h : nat)
| Resume (i : nat) (ok : bool) (now : Z).

(** What the segment that ran did to its call: it suspended again, or
    the call returned. *)
Inductive Outcome :=
| Pending
| StartReturned (sid : jsstring) (result : bool)
| StopReturned (sid : jsstring) (result : bool)
| StepReturned (sid : jsstring).

Definition park (i : nat) (t : Thread) (w : World) (st : State) : State :=
  {| world := w; pool := <[i := t]> (pool st) |}.

Definition retire (i : nat) (w : World) (st : State) : State :=
  {| world := w; pool := delete i (pool st) |}.

(** [startSession] past the stop of a running session. *)
Definition startSession_proceed (i : nat) (env : Env)
    (session : Schema.WhatsappSession) (w : World) (st : State)
    : Outcome * State :=
  match startSession_lists env session with
  | None => (StartReturned (Schema.sessionId session) false, retire i w st)
  | Some (targets, messages) =>
      (Pending, park i (StartAwaitsClient env session targets messages) w st)
  end.

(** The continuation of a suspended call. *)
Definition resume (i : nat) (ok : bool) (now : Z) (t : Thread) (st : State)
    : Outcome * State :=
  let w := world st in
  match t with
  | StartAwaitsStop env session =>
      startSession_proceed i env session
        (stopSession_finish (Schema.sessionId session) w) st
  | StartAwaitsClient env session targets messages =>
      match createWhatsAppClient env session w with
      | (Some client, w1) =>
          (Pending, park i (StartHasClient session client targets messages) w1 st)
      | (None, w1) =>
          (StartReturned (Schema.sessionId session) false, retire i w1 st)
      end
  | StartHasClient session client targets messages =>
      (StartReturned (Schema.sessionId session) true,
       retire i (startSession_register session client targets messages w) st)
  | StopAwaitsDestroy sid =>
      (StopReturned sid true, retire i (stopSession_finish sid w) st)
  | StepAwaitsSend f =>
      match sendNextMessage_sent ok now f w with
      | (Some f', w1) => (Pending, park i (StepAwaitsCount f') w1 st)
      | (None, w1) => (StepReturned (inSession f), retire i w1 st)
      end
  | StepAwaitsCount f =>
      (StepReturned (inSession f), retire i (sendNextMessage_store f w) st)
  end.

(** One turn of the event loop; [None] when the event cannot happen:
    the name of a new call is in use, the timer is not armed, or no
    call is suspended under the name. *)
Definition step (ev : Event) (st : State) : option (Outcome * State) :=
  let w := world st in
  match ev with
  | CallStart i env session =>
      match pool st !! i with
      | Some _ => None
      | None =>
          match stopSession_enter (Schema.sessionId session) w with
          | Some w1 => Some (Pending, park i (StartAwaitsStop env session) w1 st)
          | None => Some (startSession_proceed i env session w st)
          end
      end
  | CallStop i sid =>
      match pool st !! i with
      | Some _ => None
      | None =>
          match stopSession_enter sid w with
          | Some w1 => Some (Pending, park i (StopAwaitsDestroy sid) w1 st)
          | None => Some (StopReturned sid false, st)
          end
      end
  | Fire i h =>
      match pool st !! i, timers w !! h with
      | None, Some tm =>
          match sendNextMessage_enter (callbackSession tm) w with
          | (Some f, w1) => Some (Pending, park i (StepAwaitsSend f) w1 st)
          | (None, w1) => Some (StepReturned (callbackSession tm), retire i w1 st)
          end
      | _, _ => None
      end
  | Resume i ok now =>
      match pool st !! i with
      | Some t => Some (resume i ok now t st)
      | None => None
      end
  end.

(** A sequence of turns, with the outcome of each. *)
Fixpoint run (evs : list Event) (st : State) : option (list Outcome * State) :=
  match evs with
  | [] => Some ([], st)
  | ev :: rest =>
      match step ev st with
      | None => None
      | Some (o, st1) =>
          match run rest st1 with
          | None => None
          | Some (os, st2) => Some (o :: os, st2)
          end
      end
  end.

(** The session a suspended call works on. *)
Definition threadSession (t : Thread) : jsstring :=
  match t with
  | StartAwaitsStop _ session | StartAwaitsClient _ session _ _
  | StartHasClient session _ _ _ => Schema.sessionId session
  | StopAwaitsDestroy sid => sid
  | StepAwaitsSend f | StepAwaitsCount f => inSession f
  end.


Definition isStep (t : Thread) : bool :=
  match t with
  | StepAwaitsSend _ | StepAwaitsCount _ => true
  | _ => false
  end.

(** Nothing of session [sid] is suspended. *)
Definition idle (sid : jsstring) (p : gmap nat Thread) : Prop :=
  map_Forall (λ _ t, threadSession t ≠ sid) p.

(** No [startSession] or [stopSession] of session [sid] is suspended;
    dispatch steps may be. *)
Definition noCall (sid : jsstring) (p : gmap nat Thread) : Prop :=
  map_Forall (λ _ t, isStep t = false → threadSession t ≠ sid) p.

(** No dispatch step of session [sid] is suspended. *)
Definition noStep (sid : jsstring) (p : gmap nat Thread) : Prop :=
  map_Forall (λ _ t, isStep t = true → threadSession t ≠ sid) p.

(** The discipline of a caller that takes the calls of one session in
    turn: [startSession] is called for an id only when nothing of that
    id is suspended, [stopSession] only when no [startSession] or
    [stopSession] of that id is. *)
Definition permitted (ev : Event) (st : State) : Prop :=
  match ev with
  | CallStart _ _ session => idle (Schema.sessionId session) (pool st)
  | CallStop _ sid => noCall sid (pool st)
  | _ => True
  end.


(** Whether the event is a call of [startSession] for [sid]. *)
Definition callsStart (sid : jsstring) (ev : Event) : Prop :=
  match ev with
  | CallStart _ _ session => Schema.sessionId session = sid
  | _ => False
  end.

(** Whether the event is a call of [stopSession] for [sid]. *)
Definition callsStop (sid : jsstring) (ev : Event) : Prop :=
  match ev with
  | CallStop _ sid' => sid' = sid
  | _ => False
  end.

(** Whether the event is a timer firing the callback of [sid]. *)
Definition fires (sid : jsstring) (ev : Event) (st : State) : Prop :=
  match ev with
  | Fire _ h => callbackSession <$> timers (world st) !! h = Some sid
  | _ => False
  end.

















(** The turns of a run in which [startSession] is not called for
    [sid]. *)
Definition notStarting (sid : jsstring) (ev : Event) (st : State) : Prop :=
  ¬ callsStart sid ev.

(** The turns of a run in which neither [startSession] nor
    [stopSession] is called for [sid] and the timer of [sid] fires only
    when no dispatch step of [sid] is suspended: the steps of [sid] do
    not overlap. *)
Definition serial (sid : jsstring) (ev : Event) (st : State) : Prop :=
  ¬ callsStart sid ev ∧ ¬ callsStop sid ev ∧
  (fires sid ev st → noStep sid (pool st)).


#[global] Instance permitted_dec (ev : Event) (st : State)
  : Decision (permitted ev st).
Proof. destruct ev; simpl; apply _. Defined.

#[global] Instance notStarting_dec (sid : jsstring) (ev : Event) (st : State)
  : Decision (notStarting sid ev st).
Proof. unfold notStarting. destruct ev; simpl; apply _. Defined.

#[global] Instance serial_dec (sid : jsstring) (ev : Event) (st : State)
  : Decision (serial sid ev st).
Proof. unfold serial. destruct ev; simpl; apply _. Defined.





End Async.

(** * Properties *)

Import WhatsAppManager Run.

(** ** The session store *)
Section Store.
Import Schema MemStorage.

(** C10: on an id the store does not hold, [incrementMessageCount]
    answers 0 and hands back the very same store, so no record appears
    and none is modified; on an id it holds, it answers the old count
    plus one, and the only record written is that id's, with the new
    count and time stamp. *)
Theorem incrementMessageCount_spec (now : Z) (sid : jsstring) (st : t) :
  (sessions st !! sid = None →
     incrementMessageCount now sid st = (0, st)) ∧
  (∀ r, sessions st !! sid = Some r →
     incrementMessageCount now sid st =
       (messageCount r + 1,
        {| sessions :=
             <[sid := withCount (messageCount r + 1) now r]> (sessions st) |})).
Proof.
  unfold incrementMessageCount.
  split; [intros -> | intros r ->]; reflexivity.
Qed.

Lemma incrementMessageCount_spec_witness :
  let st := snd (createSession 3 (Routes.startRecord Ex.s1 Ex.body) empty) in
  incrementMessageCount 9 (JS.str "nobody") st = (0, st) ∧
  ∃ r, sessions st !! Ex.s1 = Some r ∧ messageCount r = 0 ∧
       fst (incrementMessageCount 9 Ex.s1 st) = 1.
Proof.
  intros st. split.
  - apply (proj1 (incrementMessageCount_spec 9 (JS.str "nobody") st)).
    reflexivity.
  - eexists. split; [vm_compute; reflexivity |].
    split; [reflexivity |].
    rewrite (proj2 (incrementMessageCount_spec 9 Ex.s1 st) _ eq_refl).
    reflexivity.
Defined.

End Store.

(** ** Stopping *)
Section Stop.

Lemma stopSession_absent_eq (destroyOk : bool) (sid : jsstring) (w : World) :
  activeSessions w !! sid = None →
  stopSession destroyOk sid w = (false, w).
Proof. unfold stopSession. intros ->. reflexivity. Qed.

(** C8: [stopSession] on an id with no live entry answers [false] and
    returns the world it was given: the table has the same entries as
    before, and nothing else has changed either. *)
Theorem stopSession_not_found (destroyOk : bool) (sid : jsstring) (w : World) :
  activeSessions w !! sid = None →
  fst (stopSession destroyOk sid w) = false ∧
  activeSessions (snd (stopSession destroyOk sid w)) = activeSessions w ∧
  snd (stopSession destroyOk sid w) = w.
Proof. intros H. by rewrite (stopSession_absent_eq _ _ _ H). Qed.

Lemma stopSession_not_found_witness :
  fst (stopSession false Ex.s1 init) = false ∧
  snd (stopSession false Ex.s1 init) = init.
Proof.
  destruct (stopSession_not_found false Ex.s1 init) as (H1 & _ & H2);
    [reflexivity | by split].
Defined.

Lemma stopSession_live_eq (destroyOk : bool) (sid : jsstring) (w : World)
    (sd : SessionData) :
  activeSessions w !! sid = Some sd →
  stopSession destroyOk sid w =
    (true,
     {| storage := storage w;
        activeSessions := delete sid (activeSessions w);
        timers := match interval sd with
                  | Some h => delete h (timers w)
                  | None => timers w
                  end;
        nextTimer := nextTimer w;
        clientsCreated := clientsCreated w;
        destroyed := destroyed w ++ [clientId (client sd)];
        outbox := outbox w |}).
Proof.
  unfold stopSession. intros ->.
  unfold destroy. destruct (settles _ _), (interval sd); reflexivity.
Qed.

(** C9: on a live id [stopSession] answers [true] and the table it
    leaves is the old one without that id, whether the client's
    [destroy()] resolves or rejects; a rejection changes nothing in the
    outcome of the call. *)
Theorem stopSession_swallows_teardown (destroyOk : bool) (sid : jsstring)
    (w : World) (sd : SessionData) :
  activeSessions w !! sid = Some sd →
  fst (stopSession destroyOk sid w) = true ∧
  activeSessions (snd (stopSession destroyOk sid w))
    = delete sid (activeSessions w) ∧
  destroyed (snd (stopSession destroyOk sid w))
    = destroyed w ++ [clientId (client sd)] ∧
  stopSession destroyOk sid w = stopSession (negb destroyOk) sid w.
Proof.
  intros Hlive.
  rewrite !(stopSession_live_eq _ _ _ _ Hlive). simpl. auto.
Qed.

Lemma stopSession_swallows_teardown_witness :
  let w := snd (startSession Ex.production true Ex.ab_hibye init) in
  fst (stopSession false Ex.s1 w) = true ∧
  activeSessions (snd (stopSession false Ex.s1 w)) !! Ex.s1 = None.
Proof.
  intros w.
  assert (Hlive : activeSessions w !! Ex.s1 = Some
            {| client := {| clientId := 0; simulated := false |};
               interval := Some 0;
               targets := [JS.str "a"; JS.str "b"];
               messages := [JS.str "hi"; JS.str "bye"];
               delay := 1; messageIndex := 0; targetIndex := 0 |})
    by (vm_compute; reflexivity).
  destruct (stopSession_swallows_teardown false Ex.s1 w _ Hlive)
    as (Hret & Htable & _).
  split; [exact Hret |].
  rewrite Htable. apply lookup_delete_eq.
Defined.

End Stop.

(** ** Starting *)
Section Start.

Lemma stopIfRunning_eq (destroyOk : bool) (sid : jsstring) (w : World) :
  stopIfRunning destroyOk sid w =
    match activeSessions w !! sid with
    | None => w
    | Some sd =>
        {| storage := storage w;
           activeSessions := delete sid (activeSessions w);
           timers := match interval sd with
                     | Some h => delete h (timers w)
                     | None => timers w
                     end;
           nextTimer := nextTimer w;
           clientsCreated := clientsCreated w;
           destroyed := destroyed w ++ [clientId (client sd)];
           outbox := outbox w |}
    end.
Proof.
  unfold stopIfRunning.
  destruct (activeSessions w !! sid) as [sd|] eqn:E; [| reflexivity].
  rewrite (stopSession_live_eq _ _ _ _ E). reflexivity.
Qed.

Lemma stopIfRunning_frame (destroyOk : bool) (sid : jsstring) (w : World) :
  let w0 := stopIfRunning destroyOk sid w in
  storage w0 = storage w ∧
  activeSessions w0 = delete sid (activeSessions w) ∧
  timers w0 ⊆ timers w ∧
  nextTimer w0 = nextTimer w ∧
  clientsCreated w0 = clientsCreated w ∧
  outbox w0 = outbox w.
Proof.
  simpl. rewrite stopIfRunning_eq.
  destruct (activeSessions w !! sid) as [sd|] eqn:E; simpl.
  - repeat split; try reflexivity.
    destruct (interval sd); [apply delete_subseteq | reflexivity].
  - repeat split; try reflexivity.
    symmetry. by apply delete_id.
Qed.

(** [createWhatsAppClient] touches nothing but the count of
    constructed clients. *)
Lemma createWhatsAppClient_frame (env : Env) (session : Schema.WhatsappSession)
    (w w1 : World) (r : option Client) :
  createWhatsAppClient env session w = (r, w1) →
  storage w1 = storage w ∧ activeSessions w1 = activeSessions w ∧
  timers w1 = timers w ∧ nextTimer w1 = nextTimer w ∧
  destroyed w1 = destroyed w ∧ outbox w1 = outbox w ∧
  clientsCreated w ≤ clientsCreated w1.
Proof.
  unfold createWhatsAppClient, realClient, newClient.
  intros H.
  repeat (case_match; simplify_eq/=); repeat split; auto with lia.
Qed.

(** In seconds: the timer keeps the requested period up to 2147483
    seconds and falls back to one millisecond beyond, or below one
    second. *)
Lemma timerDelay_seconds (d : Z) :
  JS.timerDelay (d * 1000) =
    if decide (1 ≤ d ≤ 2147483)%Z then (d * 1000)%Z else 1%Z.
Proof.
  unfold JS.timerDelay.
  destruct (decide (1 ≤ d ≤ 2147483)%Z) as [H | H].
  - replace ((1 <=? d * 1000)%Z) with true by lia.
    by replace ((d * 1000 <=? 2147483647)%Z) with true by lia.
  - destruct (Z.leb_spec 1 (d * 1000)), (Z.leb_spec (d * 1000) 2147483647);
      simpl; try done; lia.
Qed.

(** The successful path of [startSession], spelled out. *)
Lemma startSession_true (env : Env) (destroyOk : bool)
    (session : Schema.WhatsappSession) (w w' : World) :
  startSession env destroyOk session w = (true, w') →
  let sid := Schema.sessionId session in
  ∃ c w1,
    parseTargets (Schema.targets session) ≠ [] ∧
    resolveMessages env session ≠ Some [] ∧
    createWhatsAppClient env session (stopIfRunning destroyOk sid w)
      = (Some c, w1) ∧
    ∃ ms, resolveMessages env session = Some ms ∧
    w' = {| storage := storage w1;
            activeSessions :=
              <[sid := {| client := c; interval := Some (nextTimer w1);
                          targets := parseTargets (Schema.targets session);
                          messages := ms;
                          delay := Schema.delay session;
                          messageIndex := 0; targetIndex := 0 |}]>
                (activeSessions w1);
            timers :=
              <[nextTimer w1 :=
                  {| callbackSession := sid;
                     period := JS.timerDelay (Schema.delay session * 1000) |}]>
                  (timers w1);
            nextTimer := S (nextTimer w1);
            clientsCreated := clientsCreated w1;
            destroyed := destroyed w1;
            outbox := outbox w1 |}.
Proof.
  intros H sid. unfold startSession in H. fold sid in H.
  destruct (parseTargets (Schema.targets session)) as [|t ts] eqn:Et;
    [discriminate |].
  destruct (resolveMessages env session) as [[|m ms]|] eqn:Em;
    try discriminate.
  destruct (createWhatsAppClient env session _) as [[c|] w1] eqn:Ec;
    [| discriminate].
  simpl in H. injection H as <-.
  exists c, w1. repeat split; try done. by eexists.
Qed.

(** The failing paths of [startSession]: whatever was running under
    the id has been stopped, and at most a client was constructed. *)
Lemma startSession_false (env : Env) (destroyOk : bool)
    (session : Schema.WhatsappSession) (w w' : World) :
  startSession env destroyOk session w = (false, w') →
  let w0 := stopIfRunning destroyOk (Schema.sessionId session) w in
  storage w' = storage w0 ∧ activeSessions w' = activeSessions w0 ∧
  timers w' = timers w0 ∧ nextTimer w' = nextTimer w0 ∧
  destroyed w' = destroyed w0 ∧ outbox w' = outbox w0 ∧
  clientsCreated w0 ≤ clientsCreated w'.
Proof.
  intros H w0. unfold startSession in H. fold w0 in H.
  destruct (parseTargets (Schema.targets session)) as [|t ts];
    [by simplify_eq |].
  destruct (resolveMessages env session) as [[|m ms]|];
    try by simplify_eq.
  destruct (createWhatsAppClient env session _) as [[c|] w1] eqn:Ec;
    [discriminate |].
  simplify_eq. by apply createWhatsAppClient_frame in Ec.
Qed.

End Start.

(** ** What counts as blank *)
Section Blank.
Import Sessions.

Lemma filter_truthy_nil (l : list jsstring) :
  List.filter JS.truthy l = [] ↔ ∀ x, x ∈ l → x = [].
Proof.
  induction l as [|a l IH]; simpl.
  - split; [intros _ x Hx; by apply elem_of_nil in Hx | done].
  - destruct a as [|c a]; simpl.
    + rewrite IH. split.
      * intros H x [-> | Hx]%elem_of_cons; auto.
      * intros H x Hx. apply H. by right.
    + split; [done |]. intros H.
      specialize (H (c :: a)). discriminate H. by left.
Qed.

Lemma trimStart_nil (s : jsstring) :
  JS.trimStart s = [] ↔ forallb JS.isWhiteSpace s = true.
Proof.
  induction s as [|c s IH]; simpl; [done |].
  destruct (JS.isWhiteSpace c); simpl; [exact IH | done].
Qed.

(** An entry trims to the empty string exactly when all its code
    units are white space. *)
Lemma trim_nil (s : jsstring) :
  JS.trim s = [] ↔ forallb JS.isWhiteSpace s = true.
Proof.
  unfold JS.trim, JS.trimEnd. split.
  - intros H. apply (f_equal (@rev N)) in H.
    rewrite rev_involutive in H. simpl in H.
    apply trimStart_nil in H.
    destruct (JS.trimStart s) as [|c r] eqn:E.
    + by apply trimStart_nil.
    + exfalso. rewrite forallb_forall in H.
      assert (Hc : JS.isWhiteSpace c = true)
        by (apply H, in_rev; rewrite rev_involutive; by left).
      clear H. induction s as [|a s IH]; [discriminate |].
      simpl in E. destruct (JS.isWhiteSpace a) eqn:Ea; [auto |].
      simplify_eq. congruence.
  - intros H. apply trimStart_nil in H. by rewrite H.
Qed.

(** No target survives parsing exactly when every comma-separated
    entry is white space only. *)
Lemma parseTargets_nil (s : jsstring) :
  parseTargets s = [] ↔ blankEntries s.
Proof.
  unfold parseTargets, blankEntries. rewrite filter_truthy_nil. split.
  - intros H e He. apply trim_nil, H, list_elem_of_fmap. eauto.
  - intros H x (e & -> & He)%list_elem_of_fmap. by apply trim_nil, H.
Qed.

(** No message survives parsing exactly when every line is empty;
    lines are not trimmed. *)
Lemma parseMessages_nil (s : jsstring) :
  parseMessages s = [] ↔ emptyLines s.
Proof. apply filter_truthy_nil. Qed.

(** The parsed messages are the lines of the text in use. *)
Lemma resolveMessages_source (env : Env) (session : Schema.WhatsappSession) :
  resolveMessages env session = parseMessages <$> messageSource env session.
Proof.
  unfold resolveMessages, messageSource.
  destruct (JS.truthy _); [done |]. by destruct (readFile env _).
Qed.

(** C5 (as the code has it): when every comma-separated entry of the
    targets is white space only, or every line of the message text in
    use (the inline text, or the content of the message file when the
    inline text is empty) is empty, [startSession] answers [false];
    afterwards the table has no entry for the id and is otherwise as
    before, no timer is armed that was not armed before, and no client
    has been constructed.  With nothing running under the id
    beforehand the world is returned as it was. *)
Theorem startSession_rejects_empty (env : Env) (destroyOk : bool)
    (session : Schema.WhatsappSession) (w : World) :
  blankEntries (Schema.targets session) ∨
  (∃ text, messageSource env session = Some text ∧ emptyLines text) →
  let sid := Schema.sessionId session in
  let r := startSession env destroyOk session w in
  fst r = false ∧
  activeSessions (snd r) = delete sid (activeSessions w) ∧
  activeSessions (snd r) !! sid = None ∧
  timers (snd r) ⊆ timers w ∧
  nextTimer (snd r) = nextTimer w ∧
  clientsCreated (snd r) = clientsCreated w ∧
  storage (snd r) = storage w ∧
  outbox (snd r) = outbox w ∧
  (activeSessions w !! sid = None → snd r = w).
Proof.
  intros Hempty sid r.
  assert (Hr : r = (false, stopIfRunning destroyOk sid w)).
  { subst r. unfold startSession. fold sid.
    destruct Hempty as [Ht | (text & Hsrc & Hm)].
    - apply parseTargets_nil in Ht. by rewrite Ht.
    - rewrite resolveMessages_source, Hsrc. simpl.
      apply parseMessages_nil in Hm. rewrite Hm.
      by destruct (parseTargets _). }
  rewrite Hr. simpl.
  destruct (stopIfRunning_frame destroyOk sid w)
    as (Hst & Htab & Htm & Hnt & Hcl & Hout).
  rewrite Htab. repeat split; try done.
  - apply lookup_delete_eq.
  - intros Hnone. unfold stopIfRunning. by rewrite Hnone.
Qed.

Lemma startSession_rejects_empty_witness :
  let blank := Ex.session " , ," "hi" in
  blankEntries (Schema.targets blank) ∧
  startSession Ex.development true blank init = (false, init).
Proof.
  intros blank.
  assert (H : blankEntries (Schema.targets blank)).
  { intros e He. apply list_elem_of_In in He. cbv in He.
    destruct He as [<- | [<- | [<- | []]]]; reflexivity. }
  split; [exact H |].
  pose proof (startSession_rejects_empty Ex.development true blank init
                (or_introl H)) as (Hret & _ & _ & _ & _ & _ & _ & _ & Hsame).
  rewrite (surjective_pairing (startSession _ _ _ _)).
  rewrite Hret, Hsame; reflexivity.
Defined.

(** C5 as stated fails for message lines: with targets "a" and the
    inline text of three spaces, the only line is blank, yet it is kept
    as a message; [startSession] answers [true], registers the session,
    arms a timer and constructs a client. *)
Lemma white_space_line_is_a_message :
  let session := Ex.session "a" "   " in
  let r := startSession Ex.development true session init in
  messageSource Ex.development session = Some (JS.str "   ") ∧
  (∀ l, l ∈ JS.split JS.newline (JS.str "   ") →
        forallb JS.isWhiteSpace l = true) ∧
  resolveMessages Ex.development session = Some [JS.str "   "] ∧
  fst r = true ∧
  is_Some (activeSessions (snd r) !! Ex.s1) ∧
  is_Some (timers (snd r) !! 0) ∧
  clientsCreated (snd r) = 1.
Proof.
  split; [reflexivity |]. split.
  { intros l Hl. apply list_elem_of_In in Hl. cbv in Hl.
    destruct Hl as [<- | []]. reflexivity. }
  split; [reflexivity |]. split; [reflexivity |].
  split; [vm_compute; by eexists |].
  split; [vm_compute; by eexists | reflexivity].
Qed.

End Blank.

(** ** The dispatch step *)
Section Dispatch.

Lemma sendNextMessage_absent (realOk : bool) (now : Z) (sid : jsstring)
    (w : World) :
  activeSessions w !! sid = None → sendNextMessage realOk now sid w = w.
Proof.
  intros H. unfold sendNextMessage, sendNextMessage_enter. by rewrite H.
Qed.

(** A step on a live entry whose target cursor is inside the list. *)
Lemma sendNextMessage_live (realOk : bool) (now : Z) (sid : jsstring)
    (w : World) (sd : SessionData) (t : jsstring) :
  activeSessions w !! sid = Some sd →
  targets sd !! targetIndex sd = Some t →
  sendNextMessage realOk now sid w =
    let d := delivery sd t (messages sd !! messageIndex sd) in
    if settles (client sd) realOk then
      {| storage :=
           snd (MemStorage.incrementMessageCount now sid (storage w));
         activeSessions := <[sid := advance sd]> (activeSessions w);
         timers := timers w; nextTimer := nextTimer w;
         clientsCreated := clientsCreated w; destroyed := destroyed w;
         outbox := outbox w ++ [d] |}
    else postDelivery d w.
Proof.
  intros Hsd Ht.
  unfold sendNextMessage, sendNextMessage_enter, sendNextMessage_sent.
  rewrite Hsd, Ht. simpl.
  destruct (settles (client sd) realOk); reflexivity.
Qed.

Lemma sendNextMessage_other (realOk : bool) (now : Z) (sid sid' : jsstring)
    (w : World) :
  sid ≠ sid' →
  activeSessions (sendNextMessage realOk now sid w) !! sid'
    = activeSessions w !! sid'.
Proof.
  intros Hne.
  destruct (activeSessions w !! sid) as [sd|] eqn:Hsd.
  - destruct (targets sd !! targetIndex sd) as [t|] eqn:Ht.
    + rewrite (sendNextMessage_live _ _ _ _ _ _ Hsd Ht). simpl.
      destruct (settles _ _); simpl; [by apply lookup_insert_ne | done].
    + unfold sendNextMessage, sendNextMessage_enter. by rewrite Hsd, Ht.
  - by rewrite sendNextMessage_absent.
Qed.

(** C2 (as the code has it): a step on a live session whose send is
    rejected leaves the table and the store as they were, so the
    cursor pair and the delivery count stay put and the next step
    reads the same pair again; a step whose send resolves writes the
    entry with [messageIndex] advanced by one modulo the number of
    messages and [targetIndex] advanced by one modulo the number of
    targets exactly when the new [messageIndex] is 0. *)
Theorem cursor_advances_on_success_only (realOk : bool) (now : Z)
    (sid : jsstring) (w : World) (sd : SessionData) :
  activeSessions w !! sid = Some sd →
  targetIndex sd < length (targets sd) →
  let w' := sendNextMessage realOk now sid w in
  (settles (client sd) realOk = false →
     activeSessions w' = activeSessions w ∧ storage w' = storage w ∧
     visited sid w' = visited sid w) ∧
  (settles (client sd) realOk = true →
     ∃ sd', activeSessions w' !! sid = Some sd' ∧
       messageIndex sd' = (messageIndex sd + 1) mod length (messages sd) ∧
       targetIndex sd' =
         (if Nat.eqb (messageIndex sd') 0
          then (targetIndex sd + 1) mod length (targets sd)
          else targetIndex sd) ∧
       targets sd' = targets sd ∧ messages sd' = messages sd).
Proof.
  intros Hsd Hlt w'.
  destruct (lookup_lt_is_Some_2 _ _ Hlt) as [t Ht].
  subst w'. rewrite (sendNextMessage_live _ _ _ _ _ _ Hsd Ht). simpl.
  split; intros ->; simpl.
  - unfold visited. simpl. done.
  - exists (advance sd). rewrite lookup_insert_eq. done.
Qed.

Lemma cursor_advances_on_success_only_witness :
  let w := snd (startSession Ex.production true Ex.ab_hibye init) in
  activeSessions (sendNextMessage false 5 Ex.s1 w) = activeSessions w ∧
  ∃ sd', activeSessions (sendNextMessage true 5 Ex.s1 w) !! Ex.s1 = Some sd'
         ∧ messageIndex sd' = 1 ∧ targetIndex sd' = 0.
Proof.
  intros w.
  assert (Hlive : activeSessions w !! Ex.s1 = Some
            {| client := {| clientId := 0; simulated := false |};
               interval := Some 0;
               targets := [JS.str "a"; JS.str "b"];
               messages := [JS.str "hi"; JS.str "bye"];
               delay := 1; messageIndex := 0; targetIndex := 0 |})
    by (vm_compute; reflexivity).
  split.
  - apply (cursor_advances_on_success_only false 5 Ex.s1 w _ Hlive);
      [simpl; lia | reflexivity].
  - destruct (proj2 (cursor_advances_on_success_only true 5 Ex.s1 w _ Hlive
                       ltac:(simpl; lia)) eq_refl)
      as (sd' & Hsd' & Hm & Ht & _).
    exists sd'. split; [exact Hsd' |].
    rewrite Ht, Hm. split; reflexivity.
Defined.

(** C2 as stated fails: in production, with targets "a,b" and
    messages "hi", "bye", the step whose send is rejected leaves
    [messageIndex] at 0, not at (0 + 1) mod 2. *)
Lemma failed_send_does_not_advance :
  let w := snd (startSession Ex.production true Ex.ab_hibye init) in
  let w' := sendNextMessage false 5 Ex.s1 w in
  fst (startSession Ex.production true Ex.ab_hibye init) = true ∧
  messageIndex <$> activeSessions w !! Ex.s1 = Some 0 ∧
  (λ sd, length (messages sd)) <$> activeSessions w !! Ex.s1 = Some 2 ∧
  length (outbox w') = S (length (outbox w)) ∧
  messageIndex <$> activeSessions w' !! Ex.s1 = Some 0 ∧
  messageIndex <$> activeSessions w' !! Ex.s1 ≠ Some ((0 + 1) mod 2).
Proof. vm_compute. repeat split; congruence. Qed.

End Dispatch.

(** ** The visiting order *)
Section Order.

Lemma div_succ (M p : nat) :
  0 < M →
  (p + 1) / M = if Nat.eqb ((p + 1) mod M) 0 then p / M + 1 else p / M.
Proof.
  intros HM.
  pose proof (Nat.div_mod_eq p M) as Hp.
  pose proof (Nat.div_mod_eq (p + 1) M) as Hq.
  pose proof (Nat.mod_upper_bound p M ltac:(lia)) as Hr.
  pose proof (Nat.mod_upper_bound (p + 1) M ltac:(lia)) as Hr'.
  destruct (Nat.eqb_spec ((p + 1) mod M) 0) as [E | E]; nia.
Qed.

Lemma advance_seek (p : nat) (sd : SessionData) :
  0 < length (messages sd) → 0 < length (targets sd) →
  advance (seek p sd) = seek (p + 1) sd.
Proof.
  intros HM HT. unfold advance, seek, nextTargetIndex, nextMessageIndex.
  simpl.
  assert (Hm : (p mod length (messages sd) + 1) mod length (messages sd)
               = (p + 1) mod length (messages sd))
    by (rewrite Nat.Div0.add_mod_idemp_l; reflexivity).
  rewrite Hm, (div_succ _ p HM).
  destruct (Nat.eqb_spec ((p + 1) mod length (messages sd)) 0); [| done].
  by rewrite Nat.Div0.add_mod_idemp_l.
Qed.

Lemma seek_target (p : nat) (sd : SessionData) :
  0 < length (targets sd) →
  is_Some (targets sd !! targetIndex (seek p sd)).
Proof.
  intros HT. apply lookup_lt_is_Some_2. simpl.
  apply Nat.mod_upper_bound. lia.
Qed.


(** After any run of steps the entry sits at the position counted by
    the sends that resolved. *)
Lemma dispatch_seek (sid : jsstring) (sd : SessionData)
    (ticks : list (bool * Z)) :
  0 < length (messages sd) → 0 < length (targets sd) →
  ∀ (w : World) (p : nat),
    activeSessions w !! sid = Some (seek p sd) →
    activeSessions (dispatch sid ticks w) !! sid
      = Some (seek (p + successes (client sd) ticks) sd).
Proof.
  intros HM HT. induction ticks as [|[ok now] ticks IH]; intros w p Hw.
  - simpl. by rewrite Nat.add_0_r.
  - simpl. fold (dispatch sid ticks (sendNextMessage ok now sid w)).
    destruct (seek_target p sd HT) as [t Ht].
    unfold successes. simpl.
    rewrite (sendNextMessage_live ok now sid w _ t Hw Ht) in *. simpl.
    destruct (settles (client sd) ok) eqn:Eok; simpl.
    + fold (successes (client sd) ticks).
      replace (p + S (successes (client sd) ticks))
        with ((p + 1) + successes (client sd) ticks) by lia.
      apply IH. simpl. rewrite lookup_insert_eq.
      by rewrite advance_seek.
    + apply IH. exact Hw.
Qed.


End Order.

(** ** Invariants of the live-session table *)
Section Table.

Lemma startSession_origin (env : Env) (destroyOk : bool)
    (session : Schema.WhatsappSession) (w : World) (sid : jsstring)
    (sd' : SessionData) :
  activeSessions (snd (startSession env destroyOk session w)) !! sid
    = Some sd' →
  entryOrigin w sid sd'.
Proof.
  destruct (startSession env destroyOk session w) as [[] w'] eqn:E; simpl.
  - destruct (startSession_true _ _ _ _ _ E)
      as (c & w1 & Htg & Hne & Hc & ms & Hms & ->). simpl.
    apply createWhatsAppClient_frame in Hc as (_ & Htab & _).
    destruct (stopIfRunning_frame destroyOk (Schema.sessionId session) w)
      as (_ & Hdel & _).
    rewrite Htab, Hdel. intros H.
    destruct (decide (Schema.sessionId session = sid)) as [<- | Hne'].
    + rewrite lookup_insert_eq in H. injection H as <-.
      right; right. simpl. repeat split; try done.
      intros ->. congruence.
    + rewrite lookup_insert_ne, lookup_delete_ne in H by done. by left.
  - destruct (startSession_false _ _ _ _ _ E) as (_ & Htab & _).
    destruct (stopIfRunning_frame destroyOk (Schema.sessionId session) w)
      as (_ & Hdel & _).
    rewrite Htab, Hdel. intros [_ H]%lookup_delete_Some. by left.
Qed.

Lemma stopSession_origin (destroyOk : bool) (sid0 : jsstring) (w : World)
    (sid : jsstring) (sd' : SessionData) :
  activeSessions (snd (stopSession destroyOk sid0 w)) !! sid = Some sd' →
  entryOrigin w sid sd'.
Proof.
  destruct (activeSessions w !! sid0) as [sd|] eqn:E.
  - rewrite (stopSession_live_eq _ _ _ _ E). simpl.
    intros [_ H]%lookup_delete_Some. by left.
  - rewrite (stopSession_absent_eq _ _ _ E). by left.
Qed.

Lemma sendNextMessage_origin (realOk : bool) (now : Z) (sid0 : jsstring)
    (w : World) (sid : jsstring) (sd' : SessionData) :
  activeSessions (sendNextMessage realOk now sid0 w) !! sid = Some sd' →
  entryOrigin w sid sd'.
Proof.
  destruct (decide (sid0 = sid)) as [-> | Hne];
    [| rewrite sendNextMessage_other by done; by left].
  destruct (activeSessions w !! sid) as [sd|] eqn:Hsd;
    [| rewrite sendNextMessage_absent by done; by left].
  destruct (targets sd !! targetIndex sd) as [t|] eqn:Ht.
  - rewrite (sendNextMessage_live _ _ _ _ _ _ Hsd Ht). simpl.
    destruct (settles _ _); simpl; [| by left].
    rewrite lookup_insert_eq. intros [= <-]. right; left.
    exists sd. repeat split; try done. by eapply lookup_lt_Some.
  - unfold sendNextMessage, sendNextMessage_enter. rewrite Hsd, Ht.
    by left.
Qed.

Lemma perform_origin (o : Op) (w : World) (sid : jsstring)
    (sd' : SessionData) :
  activeSessions (perform o w) !! sid = Some sd' → entryOrigin w sid sd'.
Proof.
  destruct o as [env d session | d sid0 | ok now sid0
                | env d now nanoid b | d now [[|c sid0]|]]; simpl.
  - apply startSession_origin.
  - apply stopSession_origin.
  - apply sendNextMessage_origin.
  - unfold Routes.startHandler.
    destruct (Routes.valid b); [| by left].
    destruct (MemStorage.createSession _ _ _) as [session st1].
    destruct (startSession env d session (setStorage st1 w))
      as [[] w1] eqn:E; simpl; intros H;
      apply (startSession_origin env d session (setStorage st1 w));
      by rewrite E.
  - by left.
  - unfold Routes.stopHandler.
    destruct (MemStorage.getSessionById _ _); [| by left].
    destruct (stopSession d (c :: sid0) w) as [[] w1] eqn:E; simpl;
      intros H; apply (stopSession_origin d (c :: sid0)); by rewrite E.
  - by left.
Qed.

Lemma advance_in_range (sd : SessionData) :
  messageIndex sd < length (messages sd) →
  targetIndex sd < length (targets sd) →
  messageIndex (advance sd) < length (messages (advance sd)) ∧
  targetIndex (advance sd) < length (targets (advance sd)).
Proof.
  intros HM HT. unfold advance, nextTargetIndex, nextMessageIndex. simpl.
  split; [apply Nat.mod_upper_bound; lia |].
  destruct (Nat.eqb _ 0); [apply Nat.mod_upper_bound; lia | done].
Qed.

Lemma cursorsInRange_perform (o : Op) (w : World) :
  cursorsInRange w → cursorsInRange (perform o w).
Proof.
  intros Hw sid sd' H.
  destruct (perform_origin _ _ _ _ H)
    as [Hold | [(sd & Hsd & _ & ->) | (-> & -> & HT & HM)]].
  - by apply (Hw sid).
  - destruct (Hw _ _ Hsd). by apply advance_in_range.
  - destruct (targets sd'), (messages sd'); simpl; try done. lia.
Qed.

Lemma reachable_cursorsInRange (w : World) :
  reachable w → cursorsInRange w.
Proof.
  induction 1 as [| o w _ IH].
  - intros sid sd H. change (activeSessions init) with
      (∅ : gmap jsstring SessionData) in H.
    by rewrite lookup_empty in H.
  - by apply cursorsInRange_perform.
Qed.

End Table.

(** ** Timers and entries over completed calls *)
Section Timers.

Lemma timersConsistent_ext (w w' : World) :
  activeSessions w' = activeSessions w → timers w' = timers w →
  nextTimer w' = nextTimer w →
  timersConsistent w → timersConsistent w'.
Proof. unfold timersConsistent. by intros -> -> ->. Qed.

Lemma timersConsistent_stop (destroyOk : bool) (sid : jsstring) (w : World) :
  timersConsistent w → timersConsistent (snd (stopSession destroyOk sid w)).
Proof.
  intros [HA HB].
  destruct (activeSessions w !! sid) as [sd|] eqn:E;
    [| by rewrite (stopSession_absent_eq _ _ _ E)].
  rewrite (stopSession_live_eq _ _ _ _ E).
  destruct (HB _ _ E) as (h & tm & Hh & Htm & Hcb).
  unfold timersConsistent. simpl. rewrite Hh. split.
  - intros h' tm' [Hne Hin]%lookup_delete_Some.
    destruct (HA _ _ Hin) as (Hlt & sd2 & Hsd2 & Hi2).
    split; [done |]. exists sd2. split; [| done].
    rewrite lookup_delete_ne; [done |].
    intros Heq. rewrite <- Heq in Hsd2. congruence.
  - intros sid' sd' [Hne Hin]%lookup_delete_Some.
    destruct (HB _ _ Hin) as (h' & tm' & Hh' & Htm' & Hcb').
    exists h', tm'. repeat split; try done.
    rewrite lookup_delete_ne; [done |].
    intros Heq. subst h'. congruence.
Qed.

Lemma timersConsistent_stopIfRunning (destroyOk : bool) (sid : jsstring)
    (w : World) :
  timersConsistent w → timersConsistent (stopIfRunning destroyOk sid w).
Proof.
  intros H. unfold stopIfRunning.
  destruct (activeSessions w !! sid); [by apply timersConsistent_stop | done].
Qed.

Lemma timersConsistent_start (env : Env) (destroyOk : bool)
    (session : Schema.WhatsappSession) (w : World) :
  timersConsistent w →
  timersConsistent (snd (startSession env destroyOk session w)).
Proof.
  intros Hw.
  pose proof (timersConsistent_stopIfRunning destroyOk
                (Schema.sessionId session) w Hw) as Hw0.
  destruct (stopIfRunning_frame destroyOk (Schema.sessionId session) w)
    as (_ & Hdel & _).
  destruct (startSession env destroyOk session w) as [[] w'] eqn:E; simpl.
  - destruct (startSession_true _ _ _ _ _ E)
      as (c & w1 & _ & _ & Hc & ms & _ & ->).
    apply createWhatsAppClient_frame in Hc as (_ & Htab & Htm & Hnt & _).
    assert (H1 : timersConsistent w1)
      by (by apply (timersConsistent_ext _ w1) in Hw0).
    assert (Hgone : activeSessions w1 !! Schema.sessionId session = None)
      by (rewrite Htab, Hdel; apply lookup_delete_eq).
    destruct H1 as [HA HB]. unfold timersConsistent. simpl. split.
    + intros h tm [[<- <-] | [Hne Hin]]%lookup_insert_Some; simpl.
      * split; [lia |]. eexists. by rewrite lookup_insert_eq.
      * destruct (HA _ _ Hin) as (Hlt & sd2 & Hsd2 & Hi2).
        split; [lia |]. exists sd2. split; [| done].
        rewrite lookup_insert_ne; [done | congruence].
    + intros sid sd [[<- <-] | [Hne Hin]]%lookup_insert_Some; simpl.
      * eexists _, _. by rewrite lookup_insert_eq.
      * destruct (HB _ _ Hin) as (h & tm & Hh & Htm' & Hcb).
        exists h, tm. repeat split; try done.
        rewrite lookup_insert_ne; [done |].
        destruct (HA _ _ Htm'). lia.
  - destruct (startSession_false _ _ _ _ _ E) as (_ & Htab & Htm & Hnt & _).
    by apply (timersConsistent_ext _ w') in Hw0.
Qed.

Lemma timersConsistent_step (realOk : bool) (now : Z) (sid : jsstring)
    (w : World) :
  timersConsistent w → timersConsistent (sendNextMessage realOk now sid w).
Proof.
  intros [HA HB].
  destruct (activeSessions w !! sid) as [sd|] eqn:Hsd;
    [| by rewrite sendNextMessage_absent].
  destruct (targets sd !! targetIndex sd) as [t|] eqn:Ht;
    [| unfold sendNextMessage, sendNextMessage_enter; by rewrite Hsd, Ht].
  rewrite (sendNextMessage_live _ _ _ _ _ _ Hsd Ht). simpl.
  destruct (settles _ _); [| done].
  unfold timersConsistent. simpl. split.
  - intros h tm Hin. destruct (HA _ _ Hin) as (Hlt & sd2 & Hsd2 & Hi2).
    split; [done |].
    destruct (decide (sid = callbackSession tm)) as [Heq | Hne].
    + exists (advance sd). rewrite <- Heq in *.
      rewrite lookup_insert_eq. split; [done |].
      simpl. congruence.
    + exists sd2. by rewrite lookup_insert_ne.
  - intros sid' sd' [[<- <-] | [Hne Hin]]%lookup_insert_Some.
    + apply (HB _ _ Hsd).
    + by apply HB.
Qed.

Lemma timersConsistent_perform (o : Op) (w : World) :
  timersConsistent w → timersConsistent (perform o w).
Proof.
  intros Hw.
  destruct o as [env d session | d sid0 | ok now sid0
                | env d now nanoid b | d now [[|c sid0]|]]; simpl;
    try done.
  - by apply timersConsistent_start.
  - by apply timersConsistent_stop.
  - by apply timersConsistent_step.
  - unfold Routes.startHandler.
    destruct (Routes.valid b); [| done].
    destruct (MemStorage.createSession _ _ _) as [session st1].
    pose proof (timersConsistent_start env d session (setStorage st1 w) Hw)
      as H.
    destruct (startSession env d session (setStorage st1 w)) as [[] w1];
      exact H.
  - unfold Routes.stopHandler.
    destruct (MemStorage.getSessionById _ _); [| done].
    pose proof (timersConsistent_stop d (c :: sid0) w Hw) as H.
    destruct (stopSession d (c :: sid0) w) as [[] w1]; exact H.
Qed.

Lemma reachable_timersConsistent (w : World) :
  reachable w → timersConsistent w.
Proof.
  induction 1 as [| o w _ IH]; [| by apply timersConsistent_perform].
  split.
  - intros h tm H. change (timers init) with (∅ : gmap nat Timer) in H.
    by rewrite lookup_empty in H.
  - intros sid sd H.
    change (activeSessions init) with (∅ : gmap jsstring SessionData) in H.
    by rewrite lookup_empty in H.
Qed.

Lemma elem_of_liveTimers (sid : jsstring) (w : World) (h : nat) :
  h ∈ liveTimers sid w ↔
  ∃ tm, timers w !! h = Some tm ∧ callbackSession tm = sid.
Proof.
  unfold liveTimers. rewrite elem_of_dom. unfold is_Some.
  setoid_rewrite map_lookup_filter_Some. naive_solver.
Qed.

(** With timers and entries in correspondence, the live timers of an
    id are the one its entry holds, or none. *)
Lemma liveTimers_entry (sid : jsstring) (w : World) :
  timersConsistent w →
  liveTimers sid w =
    match activeSessions w !! sid with
    | Some sd => match interval sd with Some h => {[h]} | None => ∅ end
    | None => ∅
    end.
Proof.
  intros [HA HB]. apply set_eq. intros h. rewrite elem_of_liveTimers.
  destruct (activeSessions w !! sid) as [sd|] eqn:Hsd.
  - destruct (HB _ _ Hsd) as (h0 & tm0 & Hh0 & Htm0 & Hcb0).
    rewrite Hh0, elem_of_singleton. split.
    + intros (tm & Htm & <-).
      destruct (HA _ _ Htm) as (_ & sd2 & Hsd2 & Hi2). congruence.
    + intros ->. eauto.
  - rewrite elem_of_empty. split; [| done].
    intros (tm & Htm & <-).
    destruct (HA _ _ Htm) as (_ & sd2 & Hsd2 & _). congruence.
Qed.

End Timers.

(** ** The persisted activity flag *)
Section Flag.

Lemma startSession_storage (env : Env) (destroyOk : bool)
    (session : Schema.WhatsappSession) (w : World) :
  storage (snd (startSession env destroyOk session w)) = storage w.
Proof.
  destruct (stopIfRunning_frame destroyOk (Schema.sessionId session) w)
    as (Hst & _).
  destruct (startSession env destroyOk session w) as [[] w'] eqn:E; simpl.
  - destruct (startSession_true _ _ _ _ _ E)
      as (c & w1 & _ & _ & Hc & ms & _ & ->). simpl.
    apply createWhatsAppClient_frame in Hc as (-> & _). exact Hst.
  - destruct (startSession_false _ _ _ _ _ E) as (-> & _). exact Hst.
Qed.

(** The flag is [false] after a start the route answers with 500 and
    after a stop it answers with 200. *)
Lemma flag_false_after_failure_or_stop (env : Env) (destroyOk : bool)
    (now : Z) (nanoid : jsstring) (b : Routes.StartBody)
    (sessionId : option jsstring) (w : World) :
  (Routes.status (fst (Routes.startHandler env destroyOk now nanoid b w)) = 500 →
   isActiveOf nanoid (snd (Routes.startHandler env destroyOk now nanoid b w))
     = Some false) ∧
  (Routes.status (fst (Routes.stopHandler destroyOk now sessionId w)) = 200 →
   ∃ sid, sessionId = Some sid ∧
     isActiveOf sid (snd (Routes.stopHandler destroyOk now sessionId w))
       = Some false).
Proof.
  split.
  - unfold Routes.startHandler.
    destruct (Routes.valid b); [| discriminate].
    unfold MemStorage.createSession. simpl.
    match goal with
    | |- context [startSession env destroyOk ?s ?v] =>
        pose proof (startSession_storage env destroyOk s v) as Hst;
        destruct (startSession env destroyOk s v) as [[] w1]
    end; [discriminate |].
    intros _. unfold isActiveOf, MemStorage.updateSessionStatus. simpl in *.
    rewrite Hst. simpl. rewrite lookup_insert_eq. simpl.
    by rewrite lookup_insert_eq.
  - unfold Routes.stopHandler.
    destruct sessionId as [[|c sid]|]; try discriminate.
    unfold MemStorage.getSessionById.
    destruct (MemStorage.sessions (storage w) !! (c :: sid)) as [r|] eqn:Er;
      [| discriminate].
    destruct (activeSessions w !! (c :: sid)) as [sd|] eqn:Esd.
    + rewrite (stopSession_live_eq _ _ _ _ Esd). intros _.
      exists (c :: sid). split; [done |].
      unfold isActiveOf, MemStorage.updateSessionStatus. simpl.
      rewrite Er. simpl. by rewrite lookup_insert_eq.
    + rewrite (stopSession_absent_eq _ _ _ Esd). discriminate.
Qed.

(** C4 (what the code does): whenever the start route answers 200 in
    a world reached by completed calls, exactly one timer is armed for
    the new session id, and the persisted record of that id has
    [isActive = false]: [createSession] stores [false] whatever the
    route passes, and nothing sets the flag afterwards. *)
Theorem started_session_is_recorded_inactive (env : Env) (destroyOk : bool)
    (now : Z) (nanoid : jsstring) (b : Routes.StartBody) (w w' : World)
    (r : Routes.Response) :
  reachable w →
  Routes.startHandler env destroyOk now nanoid b w = (r, w') →
  Routes.status r = 200 →
  Schema.i_isActive (Routes.startRecord nanoid b) = true ∧
  (∃ h, liveTimers nanoid w' = {[h]}) ∧
  isActiveOf nanoid w' = Some false.
Proof.
  intros Hreach Hrun Hok.
  assert (Hr' : reachable w').
  { change w' with (snd (r, w')). rewrite <- Hrun.
    apply (reachable_perform (PostStart env destroyOk now nanoid b) w Hreach). }
  unfold Routes.startHandler in Hrun.
  destruct (Routes.valid b); [| injection Hrun as <- <-; discriminate Hok].
  destruct (MemStorage.createSession now (Routes.startRecord nanoid b)
              (storage w)) as [session st1] eqn:Ecreate.
  unfold MemStorage.createSession in Ecreate. simpl in Ecreate.
  injection Ecreate as <- <-.
  match type of Hrun with
  | context [startSession env destroyOk ?s ?v] =>
      pose proof (startSession_storage env destroyOk s v) as Hst;
      destruct (startSession env destroyOk s v) as [[] w1] eqn:E
  end; [| injection Hrun as <- <-; discriminate Hok].
  injection Hrun as <- <-. split; [reflexivity |]. split.
  - destruct (startSession_true _ _ _ _ _ E)
      as (c & v1 & _ & _ & _ & ms & _ & Ew).
    exists (nextTimer v1).
    rewrite (liveTimers_entry nanoid _ (reachable_timersConsistent _ Hr')).
    rewrite Ew. simpl. by rewrite lookup_insert_eq.
  - unfold isActiveOf. simpl in Hst. rewrite Hst. simpl.
    by rewrite lookup_insert_eq.
Qed.

Lemma started_session_is_recorded_inactive_witness :
  let run := Routes.startHandler Ex.noCreds true 0 Ex.s1 Ex.phoneBody init in
  Routes.status (fst run) = 200 ∧
  liveTimers Ex.s1 (snd run) = {[0]} ∧
  isActiveOf Ex.s1 (snd run) = Some false.
Proof.
  intros run.
  destruct (started_session_is_recorded_inactive Ex.noCreds true 0
              Ex.s1 Ex.phoneBody init (snd run) (fst run)
              reachable_init eq_refl eq_refl) as (_ & [h Hh] & Hflag).
  split; [reflexivity |]. split; [| exact Hflag].
  rewrite (liveTimers_entry _ _
             (reachable_timersConsistent _
                (reachable_perform
                   (PostStart Ex.noCreds true 0 Ex.s1 Ex.phoneBody)
                   init reachable_init))).
  reflexivity.
Defined.

End Flag.

(** * Calls that interleave at their awaits *)

(** ** The segments and the consistency of orderly states *)
Section Interleaving.
Import Async.

(** The atomic calls are the segments run back to back. *)
Lemma stopSession_segments (destroyOk : bool) (sid : jsstring) (w : World) :
  stopSession destroyOk sid w =
    match stopSession_enter sid w with
    | None => (false, w)
    | Some w1 => (true, stopSession_finish sid w1)
    end.
Proof.
  unfold stopSession, stopSession_enter, destroy.
  destruct (activeSessions w !! sid) as [sd|]; [| done].
  by destruct (settles _ _).
Qed.

Lemma startSession_segments (env : Env) (destroyOk : bool)
    (session : Schema.WhatsappSession) (w : World) :
  startSession env destroyOk session w =
    let sid := Schema.sessionId session in
    let w0 := match stopSession_enter sid w with
              | None => w
              | Some w1 => stopSession_finish sid w1
              end in
    match startSession_lists env session with
    | None => (false, w0)
    | Some (targets, messages) =>
        match createWhatsAppClient env session w0 with
        | (None, w1) => (false, w1)
        | (Some client, w1) =>
            (true, startSession_register session client targets messages w1)
        end
    end.
Proof.
  unfold startSession, startSession_lists, stopIfRunning. simpl.
  rewrite stopSession_segments. unfold stopSession_enter.
  destruct (activeSessions w !! Schema.sessionId session) as [sd|]; simpl;
    destruct (parseTargets _); try done;
    destruct (resolveMessages env session) as [[|m ms]|]; done.
Qed.

Lemma sendNextMessage_segments (realOk : bool) (now : Z) (sid : jsstring)
    (w : World) :
  sendNextMessage realOk now sid w =
    match sendNextMessage_enter sid w with
    | (None, w1) => w1
    | (Some f, w1) =>
        match sendNextMessage_sent realOk now f w1 with
        | (None, w2) => w2
        | (Some f', w2) => sendNextMessage_store f' w2
        end
    end.
Proof. reflexivity. Qed.



























End Interleaving.

(** ** Where a call returns *)
Section Returns.
Import Async.



End Returns.

(** ** One timer per session *)
Section OneTimer.
Import Async.





End OneTimer.

Section OneTimerExamples.
Import Async.






End OneTimerExamples.

(** ** Cancellation *)
Section Cancellation.
Import Async.









End Cancellation.

(** ** Frozen lists *)
Section Frozen.
Import Async.








End Frozen.

(** ** The visiting order of steps that do not overlap *)
Section Pace.
Import Async.




















End Pace.

(** ** Worked runs *)
Section Examples.
Import Async.






(** Why the steps must not overlap: with every send resolving, when
    the timer fires a second time while the first step is still
    suspended in [sendMessage], both steps read and send (a, hi) and
    both write the cursor of (a, bye); after two completed steps the
    next one reads (a, bye), where the formula gives (b, hi). *)
Lemma overlapping_steps_repeat_pair :
  ∃ st1,
    run [CallStart 0 Ex.production Ex.ab_hibye; Resume 0 true 0;
         Resume 0 true 0;
         Fire 1 0; Fire 2 0;
         Resume 1 true 1; Resume 1 true 1; Resume 2 true 2; Resume 2 true 2]
      initial
      = Some ([Pending; Pending; StartReturned Ex.s1 true; Pending; Pending;
               Pending; StepReturned Ex.s1; Pending; StepReturned Ex.s1], st1) ∧
    to <$> outbox (world st1) = [JS.str "a@c.us"; JS.str "a@c.us"] ∧
    body <$> outbox (world st1) = [Some (JS.str "hi"); Some (JS.str "hi")] ∧
    visited Ex.s1 (world st1) = Some (JS.str "a", JS.str "bye") ∧
    [JS.str "a"; JS.str "b"] !! ((2 / 2) mod 2) = Some (JS.str "b").
Proof.
  eexists. split; [vm_compute; reflexivity |].
  repeat split; vm_compute; reflexivity.
Qed.

End Examples.


(** * Further properties *)

(** ** Splitting, trimming and joining *)
Section Strings.

(** Closes [x ∉ l] on a concrete list of code units. *)
Ltac absent := rewrite list_elem_of_In; cbv; intuition discriminate.

Lemma split_not_nil (sep : N) (s : jsstring) : JS.split sep s ≠ [].
Proof.
  induction s as [|c s IH]; simpl; [done |].
  destruct (N.eqb c sep); [done |]. by destruct (JS.split sep s).
Qed.

Lemma split_sep_free (sep : N) (s p : jsstring) :
  p ∈ JS.split sep s → sep ∉ p.
Proof.
  revert p. induction s as [|c s IH]; simpl; intros p Hp.
  - apply list_elem_of_singleton in Hp as ->. apply not_elem_of_nil.
  - destruct (N.eqb_spec c sep) as [-> | Hne].
    + apply elem_of_cons in Hp as [-> | Hp]; [apply not_elem_of_nil | auto].
    + destruct (JS.split sep s) as [|q qs] eqn:E.
      * apply list_elem_of_singleton in Hp as ->.
        intros [-> | H]%elem_of_cons; [done | by apply elem_of_nil in H].
      * apply elem_of_cons in Hp as [-> | Hp].
        -- intros [-> | H]%elem_of_cons; [done |].
           by apply (IH q); [left |].
        -- apply IH. by right.
Qed.

Lemma split_free (sep : N) (p : jsstring) :
  sep ∉ p → JS.split sep p = [p].
Proof.
  induction p as [|c p IH]; simpl; intros H; [done |].
  apply not_elem_of_cons in H as [Hc Hp].
  destruct (N.eqb_spec c sep) as [-> | _]; [done |]. by rewrite IH.
Qed.

Lemma split_app_sep (sep : N) (p s : jsstring) :
  sep ∉ p → JS.split sep (p ++ sep :: s) = p :: JS.split sep s.
Proof.
  induction p as [|c p IH]; simpl; intros H.
  - by rewrite N.eqb_refl.
  - apply not_elem_of_cons in H as [Hc Hp].
    destruct (N.eqb_spec c sep) as [-> | _]; [done |]. by rewrite IH.
Qed.

(** Joining the pieces of a split gives the string back. *)
Lemma join_split (sep : N) (s : jsstring) :
  Text.join sep (JS.split sep s) = s.
Proof.
  induction s as [|c s IH]; simpl; [done |].
  destruct (N.eqb_spec c sep) as [-> | _].
  - pose proof (split_not_nil sep s) as Hne.
    destruct (JS.split sep s) as [|q qs] eqn:E; [done |].
    simpl in *. by rewrite IH.
  - destruct (JS.split sep s) as [|q qs] eqn:E.
    + by destruct (split_not_nil sep s).
    + destruct qs; simpl in *; by rewrite <- IH.
Qed.

(** Splitting a join of separator-free pieces gives the pieces back. *)
Lemma split_join (sep : N) (parts : list jsstring) :
  parts ≠ [] → Forall (λ p, sep ∉ p) parts →
  JS.split sep (Text.join sep parts) = parts.
Proof.
  induction parts as [|p parts IH]; [done |]. intros _ Hall.
  apply Forall_cons in Hall as [Hp Hall].
  destruct parts as [|q parts]; simpl.
  - by apply split_free.
  - rewrite split_app_sep by done. f_equal. by apply IH.
Qed.

Lemma trimStart_elem (s : jsstring) (x : N) :
  x ∈ JS.trimStart s → x ∈ s.
Proof.
  induction s as [|c s IH]; simpl; [done |].
  destruct (JS.isWhiteSpace c); [| done]. intros H. right. auto.
Qed.

Lemma elem_of_rev (l : jsstring) (x : N) : x ∈ rev l ↔ x ∈ l.
Proof. rewrite !list_elem_of_In. symmetry. apply in_rev. Qed.

Lemma trim_elem (s : jsstring) (x : N) : x ∈ JS.trim s → x ∈ s.
Proof.
  unfold JS.trim, JS.trimEnd. intros H.
  apply trimStart_elem, elem_of_rev, trimStart_elem, elem_of_rev, H.
Qed.

Lemma trimStart_startsBlank (s : jsstring) :
  Text.startsBlank (JS.trimStart s) = false.
Proof.
  induction s as [|c s IH]; simpl; [done |].
  destruct (JS.isWhiteSpace c) eqn:E; [done |]. simpl. by rewrite E.
Qed.

Lemma trimStart_fixed (s : jsstring) :
  Text.startsBlank s = false → JS.trimStart s = s.
Proof. destruct s as [|c s]; simpl; [done |]. by intros ->. Qed.

(** What [trimStart] leaves is a suffix. *)
Lemma trimStart_suffix (s : jsstring) :
  ∃ a, s = a ++ JS.trimStart s.
Proof.
  induction s as [|c s [a IH]]; simpl; [by exists [] |].
  destruct (JS.isWhiteSpace c).
  - exists (c :: a). simpl. by f_equal.
  - by exists [].
Qed.

Lemma startsBlank_app (s a : jsstring) :
  s ≠ [] → Text.startsBlank (s ++ a) = Text.startsBlank s.
Proof. by destruct s. Qed.

Lemma trim_isTrimmed (s : jsstring) : Text.isTrimmed (JS.trim s) = true.
Proof.
  unfold Text.isTrimmed, JS.trim, JS.trimEnd.
  rewrite rev_involutive, trimStart_startsBlank, andb_true_r.
  set (u := JS.trimStart s).
  destruct (trimStart_suffix (rev u)) as [a Ha].
  destruct (JS.trimStart (rev u)) as [|c v] eqn:Ev; [done |].
  apply (f_equal (@rev N)) in Ha.
  rewrite rev_involutive, rev_app_distr in Ha.
  assert (Hu : Text.startsBlank u = false) by apply trimStart_startsBlank.
  rewrite Ha, startsBlank_app in Hu; [by rewrite Hu |].
  simpl. intros H. by apply app_eq_nil in H as [_ ?].
Qed.

Lemma trim_fixed (s : jsstring) :
  Text.isTrimmed s = true → JS.trim s = s.
Proof.
  unfold Text.isTrimmed, JS.trim, JS.trimEnd.
  intros [H1 H2]%andb_true_iff.
  apply negb_true_iff in H1, H2.
  rewrite (trimStart_fixed s H1), (trimStart_fixed _ H2).
  apply rev_involutive.
Qed.

(** X1: every target that [startSession] parses out of the targets
    string is a non-empty string without a comma and without white
    space at either end, and it is the trimmed form of one of the
    comma-separated entries. *)
Theorem parseTargets_entries (s t : jsstring) :
  t ∈ parseTargets s →
  t ≠ [] ∧ (JS.comma ∉ t) ∧ Text.isTrimmed t = true ∧
  ∃ e, e ∈ JS.split JS.comma s ∧ t = JS.trim e.
Proof.
  unfold parseTargets. intros H.
  apply list_elem_of_In, filter_In in H as [H Ht].
  apply list_elem_of_In, list_elem_of_fmap in H as (e & -> & He).
  split; [by destruct (JS.trim e) |]. split; [| split].
  - intros Hc. apply trim_elem in Hc. by apply (split_sep_free _ _ _ He).
  - apply trim_isTrimmed.
  - eauto.
Qed.

Lemma parseTargets_entries_witness :
  let t := JS.str "40711@c.us" in
  t ∈ parseTargets (JS.str " 40700 ,, 40711@c.us ") ∧
  t ≠ [] ∧ (JS.comma ∉ t) ∧ Text.isTrimmed t = true.
Proof.
  intros t.
  assert (H : t ∈ parseTargets (JS.str " 40700 ,, 40711@c.us "))
    by (vm_compute; right; left).
  destruct (parseTargets_entries _ _ H) as (H1 & H2 & H3 & _). done.
Defined.

Lemma filter_truthy_id (l : list jsstring) :
  Forall (λ t, t ≠ []) l → List.filter JS.truthy l = l.
Proof.
  induction 1 as [|t l Ht _ IH]; simpl; [done |].
  destruct t; [done |]. simpl. by rewrite IH.
Qed.

(** X2: a list of targets, each non-empty, comma-free and without
    white space at its ends, joined with commas is parsed back to
    exactly that list, in order. *)
Theorem parseTargets_join (ts : list jsstring) :
  Forall (λ t, t ≠ [] ∧ (JS.comma ∉ t) ∧ Text.isTrimmed t = true) ts →
  parseTargets (Text.join JS.comma ts) = ts.
Proof.
  intros Hall. unfold parseTargets.
  destruct ts as [|t ts]; [done |].
  rewrite split_join; [| done |].
  - rewrite filter_truthy_id.
    + clear -Hall. induction Hall as [|x l (_ & _ & Hx) _ IH]; [done |].
      simpl. rewrite trim_fixed by done. by f_equal.
    + clear -Hall. induction Hall as [|x l (Hx & _ & Ht) _ IH]; [done |].
      simpl. constructor; [by rewrite trim_fixed | done].
  - eapply Forall_impl; [exact Hall |]. by intros x (_ & ? & _).
Qed.

Lemma parseTargets_join_witness :
  parseTargets (Text.join JS.comma [JS.str "a"; JS.str "b c"; JS.str "d"])
    = [JS.str "a"; JS.str "b c"; JS.str "d"].
Proof.
  apply parseTargets_join.
  repeat constructor; try done; absent.
Defined.

(** X3: every message that [startSession] parses out of a text is a
    non-empty line without a line feed; and the text made of given
    lines joined by line feeds is parsed to those lines in order, the
    empty ones dropped and nothing trimmed. *)
Theorem parseMessages_lines (s : jsstring) (ms : list jsstring) :
  (∀ m, m ∈ parseMessages s → m ≠ [] ∧ (JS.newline ∉ m)) ∧
  (Forall (λ m, JS.newline ∉ m) ms →
   parseMessages (Text.join JS.newline ms) = List.filter JS.truthy ms).
Proof.
  unfold parseMessages. split.
  - intros m H. apply list_elem_of_In, filter_In in H as [H Hm].
    split; [by destruct m |].
    by apply (split_sep_free JS.newline s), list_elem_of_In.
  - intros Hall. destruct ms as [|m ms]; [done |].
    by rewrite split_join.
Qed.

Lemma parseMessages_lines_witness :
  let cr := [13%N] in
  parseMessages (Text.join JS.newline [JS.str "hi" ++ cr; []; JS.str " "])
    = [JS.str "hi" ++ cr; JS.str " "].
Proof.
  intros cr.
  rewrite (proj2 (parseMessages_lines [] _)); [reflexivity |].
  repeat constructor; absent.
Defined.

Lemma includes_self (p : jsstring) : JS.includes p p = true.
Proof.
  assert (H : JS.startsWith p p = true)
    by (induction p as [|c p IH]; simpl; [done | by rewrite N.eqb_refl]).
  destruct p; simpl in *; [done |]. by rewrite H.
Qed.

Lemma includes_app_r (p t : jsstring) : JS.includes p (t ++ p) = true.
Proof.
  induction t as [|c t IH]; simpl; [apply includes_self |].
  rewrite IH. apply orb_true_r.
Qed.

(** X4: the address a dispatch step hands to [sendMessage] always
    contains "@c.us" and starts with the stored target; formatting is
    idempotent, so a target that already carries the suffix is sent
    as it is. *)
Theorem formatTarget_suffix (target : jsstring) :
  JS.includes (JS.str "@c.us") (formatTarget target) = true ∧
  formatTarget (formatTarget target) = formatTarget target ∧
  (∃ rest, formatTarget target = target ++ rest) ∧
  (JS.includes (JS.str "@c.us") target = true → formatTarget target = target).
Proof.
  unfold formatTarget.
  destruct (JS.includes (JS.str "@c.us") target) eqn:E.
  - rewrite E. repeat split; try done. exists []. by rewrite app_nil_r.
  - rewrite includes_app_r. repeat split; try done. eauto.
Qed.

Lemma formatTarget_suffix_witness :
  formatTarget (JS.str "40700@c.us") = JS.str "40700@c.us".
Proof. apply formatTarget_suffix. reflexivity. Defined.

End Strings.

(** ** The session store, further *)
Section SessionStore.
Import Schema MemStorage StoreRun.

(** X5: [createSession] followed by [getSessionById] under the same
    session id gives the record that was returned; that record is
    inactive with a zero count and both time stamps at the creation
    time, whatever [isActive] the caller passed and whatever record
    the id held before, and its delay is never 0; the records of all
    other session ids are as before. *)
Theorem createSession_getSessionById (now : Z) (d : InsertWhatsappSession)
    (st : t) :
  let created := createSession now d st in
  getSessionById (i_sessionId d) (snd created) = Some (fst created) ∧
  sessionId (fst created) = i_sessionId d ∧
  isActive (fst created) = false ∧ messageCount (fst created) = 0 ∧
  createdAt (fst created) = now ∧ updatedAt (fst created) = now ∧
  delay (fst created) ≠ 0%Z ∧
  (∀ sid, sid ≠ i_sessionId d →
     getSessionById sid (snd created) = getSessionById sid st).
Proof.
  unfold createSession, getSessionById. simpl.
  rewrite lookup_insert_eq. repeat split; try done.
  - destruct (Z.eqb_spec (i_delay d) 0); [done | lia].
  - intros sid Hne. by rewrite lookup_insert_ne.
Qed.

Lemma createSession_getSessionById_witness :
  let st := snd (createSession 3 (Routes.startRecord Ex.s1 Ex.body) empty) in
  let st' := snd (incrementMessageCount 4 Ex.s1 st) in
  messageCount <$> getSessionById Ex.s1 st' = Some 1 ∧
  messageCount <$>
    getSessionById Ex.s1
      (snd (createSession 5 (Routes.startRecord Ex.s1 Ex.body) st'))
    = Some 0.
Proof.
  intros st st'. split; [reflexivity |].
  destruct (createSession_getSessionById 5
              (Routes.startRecord Ex.s1 Ex.body) st') as (Hget & _ & _ & Hc & _).
  etrans; [exact (f_equal (fmap messageCount) Hget) |].
  exact (f_equal Some Hc).
Defined.

Lemma apply_lookup (u : Update) (st : t) (sid : jsstring) (r : WhatsappSession) :
  sessions st !! sid = Some r →
  ∃ r', sessions (apply u st) !! sid = Some r' ∧
    messageCount r' = messageCount r + increments sid [u] ∧
    isActive r' = lastStatus sid (isActive r) [u] ∧
    id r' = id r ∧ sessionId r' = sessionId r ∧ targets r' = targets r ∧
    messageText r' = messageText r ∧ createdAt r' = createdAt r.
Proof.
  intros Hr. destruct u as [now sid' | now sid' b]; simpl.
  - unfold incrementMessageCount.
    destruct (decide (sid' = sid)) as [-> | Hne].
    + rewrite Hr. simpl. rewrite lookup_insert_eq. eexists.
      split; [done |]. simpl. repeat split; try done; lia.
    + destruct (sessions st !! sid') as [r0|]; simpl.
      * rewrite lookup_insert_ne by done. exists r.
        repeat split; try done; lia.
      * exists r. repeat split; try done; lia.
  - unfold updateSessionStatus.
    destruct (decide (sid' = sid)) as [-> | Hne].
    + rewrite Hr. simpl. rewrite lookup_insert_eq. eexists.
      split; [done |]. simpl. repeat split; try done; lia.
    + destruct (sessions st !! sid') as [r0|]; simpl.
      * rewrite lookup_insert_ne by done. exists r.
        repeat split; try done; lia.
      * exists r. repeat split; try done; lia.
Qed.

Lemma apply_dom (u : Update) (st : t) :
  dom (sessions (apply u st)) = dom (sessions st).
Proof.
  destruct u as [now sid | now sid b]; simpl;
    unfold incrementMessageCount, updateSessionStatus;
    destruct (sessions st !! sid) as [r|] eqn:E; simpl; try done;
    by apply dom_insert_lookup_L.
Qed.

(** X6: over any sequence of [incrementMessageCount] and
    [updateSessionStatus] calls, a record that exists keeps existing;
    its count grows by exactly the number of increments made under its
    id, its flag is the one written by the last status update under
    its id (the old flag if there was none), and its row id, session
    id, targets, message text and creation time never change.  No
    record is created or removed by these calls. *)
Theorem updates_count_and_flag (us : list Update) (st : t) (sid : jsstring)
    (r : WhatsappSession) :
  sessions st !! sid = Some r →
  (∃ r', sessions (run us st) !! sid = Some r' ∧
     messageCount r' = messageCount r + increments sid us ∧
     isActive r' = lastStatus sid (isActive r) us ∧
     id r' = id r ∧ sessionId r' = sessionId r ∧ targets r' = targets r ∧
     messageText r' = messageText r ∧ createdAt r' = createdAt r) ∧
  dom (sessions (run us st)) = dom (sessions st).
Proof.
  revert st r. induction us as [|u us IH]; intros st r Hr.
  - split; [| done]. exists r. simpl. repeat split; try done; lia.
  - simpl. destruct (apply_lookup u st sid r Hr)
      as (r1 & Hr1 & Hc & Hf & Hid & Hs & Ht & Hm & Hcr).
    destruct (IH _ _ Hr1) as [(r' & Hr' & Hc' & Hf' & Hid' & Hs' & Ht' & Hm' & Hcr') Hdom].
    split; [| by rewrite Hdom, apply_dom].
    exists r'. split; [done |].
    rewrite Hc', Hf', Hid', Hs', Ht', Hm', Hcr'.
    rewrite Hc, Hf, Hid, Hs, Ht, Hm, Hcr.
    repeat split; try done.
    + destruct u as [now sid' | now sid' b]; simpl; lia.
    + destruct u as [now sid' | now sid' b]; simpl; [done |].
      by destruct (decide (sid' = sid)).
Qed.

Lemma updates_count_and_flag_witness :
  let st := snd (createSession 3 (Routes.startRecord Ex.s1 Ex.body) empty) in
  let us := [Increment 4 Ex.s1; SetStatus 5 Ex.s1 true;
             Increment 6 (JS.str "other"); Increment 7 Ex.s1] in
  ∃ r', sessions (run us st) !! Ex.s1 = Some r' ∧
        messageCount r' = 2 ∧ isActive r' = true.
Proof.
  intros st us.
  destruct (updates_count_and_flag us st Ex.s1 _ eq_refl)
    as [(r' & Hr' & Hc & Hf & _) _].
  exists r'. split; [exact Hr' |]. split; [exact Hc | exact Hf].
Defined.

Lemma createSession_size_fresh (now : Z) (d : InsertWhatsappSession) (st : t) :
  sessions st !! i_sessionId d = None →
  size (sessions (snd (createSession now d st))) = S (size (sessions st)).
Proof. intros H. simpl. by apply map_size_insert_None. Qed.

Lemma createSession_size_taken (now : Z) (d : InsertWhatsappSession) (st : t)
    (r : WhatsappSession) :
  sessions st !! i_sessionId d = Some r →
  size (sessions (snd (createSession now d st))) = size (sessions st).
Proof. intros H. simpl. by eapply map_size_insert_Some. Qed.

(** X7: in a store whose row ids lie between 1 and the number of rows
    and are pairwise distinct, creating a session under a session id
    not yet stored gives it the row id "number of rows plus one",
    different from every stored row id, and the new store again has
    its row ids in range and pairwise distinct; the two update calls
    keep both facts as well. *)
Theorem fresh_sessions_get_distinct_ids (now : Z) (d : InsertWhatsappSession)
    (u : Update) (st : t) :
  idsBounded st → idsDistinct st →
  (sessions st !! i_sessionId d = None →
     id (fst (createSession now d st)) = size (sessions st) + 1 ∧
     (∀ sid r, sessions st !! sid = Some r →
        id r ≠ id (fst (createSession now d st))) ∧
     idsBounded (snd (createSession now d st)) ∧
     idsDistinct (snd (createSession now d st))) ∧
  (idsBounded (apply u st) ∧ idsDistinct (apply u st)).
Proof.
  intros Hb Hd. split.
  - intros Hfresh.
    pose proof (createSession_size_fresh now d st Hfresh) as Hsize.
    split; [done |]. split; [| split].
    + intros sid r Hr. simpl. destruct (Hb _ _ Hr). lia.
    + intros sid r. rewrite Hsize. simpl.
      intros [[<- <-] | [Hne Hr]]%lookup_insert_Some; simpl; [lia |].
      destruct (Hb _ _ Hr). lia.
    + intros sid1 sid2 r1 r2. simpl.
      intros [[<- <-] | [Hne1 Hr1]]%lookup_insert_Some
             [[<- <-] | [Hne2 Hr2]]%lookup_insert_Some; simpl; try done.
      * destruct (Hb _ _ Hr2). lia.
      * destruct (Hb _ _ Hr1). lia.
      * by apply Hd.
  - assert (Hsame : ∀ sid r', sessions (apply u st) !! sid = Some r' →
              ∃ r, sessions st !! sid = Some r ∧ id r' = id r).
    { intros sid r' Hr'.
      assert (Hin : sid ∈ dom (sessions st))
        by (rewrite <- (apply_dom u); by apply elem_of_dom_2 in Hr').
      apply elem_of_dom in Hin as [r Hr].
      destruct (apply_lookup u st sid r Hr) as (r1 & Hr1 & _ & _ & Hid & _).
      exists r. split; [done | congruence]. }
    assert (Hsize : size (sessions (apply u st)) = size (sessions st)).
    { rewrite <- !size_dom. by rewrite apply_dom. }
    split.
    + intros sid r' Hr'. destruct (Hsame _ _ Hr') as (r & Hr & ->).
      rewrite Hsize. by apply (Hb sid).
    + intros sid1 sid2 r1 r2 H1 H2.
      destruct (Hsame _ _ H1) as (q1 & Hq1 & ->).
      destruct (Hsame _ _ H2) as (q2 & Hq2 & ->). by apply Hd.
Qed.

Lemma fresh_sessions_get_distinct_ids_witness :
  let st := snd (createSession 3 (Routes.startRecord Ex.s1 Ex.body) empty) in
  let d := Routes.startRecord (JS.str "s2") Ex.body in
  id (fst (createSession 4 d st)) = 2 ∧ idsDistinct (snd (createSession 4 d st)).
Proof.
  intros st d.
  assert (Hb : idsBounded st).
  { intros sid r. simpl.
    intros [[<- <-] | [_ H]]%lookup_insert_Some;
      [vm_compute; lia | by rewrite lookup_empty in H]. }
  assert (Hd : idsDistinct st).
  { intros a b r1 r2. simpl.
    intros [[<- <-] | [_ H]]%lookup_insert_Some
           [[<- <-] | [_ H']]%lookup_insert_Some; try done;
      by rewrite lookup_empty in *. }
  destruct (fresh_sessions_get_distinct_ids 4 d (Increment 0 []) st Hb Hd)
    as [Hfresh _].
  destruct Hfresh as (Hid & _ & _ & Hdist); [by vm_compute |].
  split; [| exact Hdist]. rewrite Hid. by vm_compute.
Defined.

(** X8: creating a session under a session id that is already stored
    replaces the record without adding a row, so the session created
    next under a new session id receives the same row id: two stored
    sessions then share their row id. *)
Theorem recreated_session_shares_id (now1 now2 : Z)
    (d1 d2 : InsertWhatsappSession) (st : t) (r : WhatsappSession) :
  sessions st !! i_sessionId d1 = Some r →
  sessions st !! i_sessionId d2 = None →
  let st1 := snd (createSession now1 d1 st) in
  let st2 := snd (createSession now2 d2 st1) in
  ∃ r1 r2, sessions st2 !! i_sessionId d1 = Some r1 ∧
           sessions st2 !! i_sessionId d2 = Some r2 ∧
           i_sessionId d1 ≠ i_sessionId d2 ∧
           id r1 = id r2 ∧ ¬ idsDistinct st2.
Proof.
  intros Htaken Hfresh st1 st2.
  assert (Hne : i_sessionId d1 ≠ i_sessionId d2) by congruence.
  pose proof (createSession_size_taken now1 d1 st r Htaken) as Hsize.
  eexists _, _. split; [| split; [| split; [done |]]].
  - subst st2. simpl. rewrite lookup_insert_ne by done.
    by rewrite lookup_insert_eq.
  - subst st2. simpl. by rewrite lookup_insert_eq.
  - assert (Hid : ∀ a b : nat, a = b → a + 1 = b + 1) by (intros; lia).
    split.
    + simpl. apply Hid. symmetry. exact Hsize.
    + intros Hd. apply Hne.
      eapply (Hd (i_sessionId d1) (i_sessionId d2)).
      * subst st2. simpl. rewrite lookup_insert_ne by done.
        by rewrite lookup_insert_eq.
      * subst st2. simpl. by rewrite lookup_insert_eq.
      * simpl. apply Hid. symmetry. exact Hsize.
Qed.

Lemma recreated_session_shares_id_witness :
  let st := snd (createSession 3 (Routes.startRecord Ex.s1 Ex.body) empty) in
  let st2 := snd (createSession 5 (Routes.startRecord (JS.str "s2") Ex.body)
                    (snd (createSession 4 (Routes.startRecord Ex.s1 Ex.body) st))) in
  ¬ idsDistinct st2.
Proof.
  intros st st2.
  destruct (recreated_session_shares_id 4 5 (Routes.startRecord Ex.s1 Ex.body)
              (Routes.startRecord (JS.str "s2") Ex.body) st _ eq_refl eq_refl)
    as (r1 & r2 & _ & _ & _ & _ & H).
  exact H.
Defined.

End SessionStore.

(** ** Maps in insertion order *)
Section JSMapFacts.
Context {V : Type}.
Implicit Types (m : list (nat * V)) (k : nat) (v : V).

Lemma get_None m k : JSMap.get k m = None ↔ k ∉ JSMap.keys m.
Proof.
  induction m as [|[k' v'] m IH]; simpl.
  - split; [intros _; apply not_elem_of_nil | done].
  - destruct (Nat.eqb_spec k' k) as [-> | Hne].
    + split; [done |]. intros H. destruct H. by left.
    + rewrite IH, not_elem_of_cons. split; [by split; [congruence |] |].
      by intros [_ ?].
Qed.

Lemma set_fresh m k v :
  k ∉ JSMap.keys m → JSMap.set k v m = m ++ [(k, v)].
Proof.
  induction m as [|[k' v'] m IH]; simpl; [done |].
  intros [Hne Hk]%not_elem_of_cons.
  destruct (Nat.eqb_spec k' k) as [-> | _]; [done |]. by rewrite IH.
Qed.

Lemma get_snoc_eq m k v :
  k ∉ JSMap.keys m → JSMap.get k (m ++ [(k, v)]) = Some v.
Proof.
  induction m as [|[k' v'] m IH]; simpl.
  - intros _. by rewrite Nat.eqb_refl.
  - intros [Hne Hk]%not_elem_of_cons.
    destruct (Nat.eqb_spec k' k) as [-> | _]; [done | auto].
Qed.

Lemma get_snoc_ne m k k' v :
  k ≠ k' → JSMap.get k' (m ++ [(k, v)]) = JSMap.get k' m.
Proof.
  intros Hne. induction m as [|[k0 v0] m IH]; simpl.
  - by destruct (Nat.eqb_spec k k').
  - by destruct (Nat.eqb k0 k').
Qed.

Lemma get_entry m k v :
  NoDup (JSMap.keys m) → (k, v) ∈ m → JSMap.get k m = Some v.
Proof.
  induction m as [|[k' v'] m IH]; simpl; intros Hnd Hin.
  - by apply elem_of_nil in Hin.
  - apply NoDup_cons in Hnd as [Hk' Hnd].
    apply elem_of_cons in Hin as [[= -> ->] | Hin].
    + by rewrite Nat.eqb_refl.
    + destruct (Nat.eqb_spec k' k) as [-> | _]; [| auto].
      destruct Hk'. apply list_elem_of_fmap. by exists (k, v).
Qed.

Lemma find_snoc (P : V → bool) (l : list V) (x : V) :
  List.find P (l ++ [x]) =
    match List.find P l with
    | Some y => Some y
    | None => if P x then Some x else None
    end.
Proof.
  induction l as [|y l IH]; simpl; [done |]. by destruct (P y).
Qed.

Lemma find_values_Some (P : V → bool) m v :
  List.find P (JSMap.values m) = Some v →
  P v = true ∧ ∃ k, (k, v) ∈ m.
Proof.
  intros H. apply find_some in H as [Hin HP]. split; [done |].
  apply list_elem_of_In, list_elem_of_fmap in Hin as ([k v'] & -> & Hin).
  by exists k.
Qed.

Lemma find_values_None (P : V → bool) m :
  List.find P (JSMap.values m) = None ↔ ∀ k v, (k, v) ∈ m → P v = false.
Proof.
  split.
  - intros H k v Hin. apply (find_none _ _ H).
    apply list_elem_of_In, list_elem_of_fmap. by exists (k, v).
  - intros H. destruct (List.find P (JSMap.values m)) as [v|] eqn:E; [| done].
    apply find_values_Some in E as (HP & k & Hin).
    rewrite (H _ _ Hin) in HP. discriminate.
Qed.

Lemma seq_snoc_bound (n k : nat) : k ∈ seq 1 n ↔ 1 ≤ k ≤ n.
Proof. rewrite list_elem_of_In, in_seq. lia. Qed.

End JSMapFacts.

(** ** Users *)
Section UserStore.
Context {A : Type}.
Import Users.
Implicit Types (st : Users.t A) (ins : InsertUser A).

Lemma createUser_eq ins st :
  wellKeyed st →
  let user := {| id := userCurrentId st; username := i_username ins;
                 columns := i_columns ins |} in
  createUser ins st =
    (user, {| users := users st ++ [(userCurrentId st, user)];
              userCurrentId := userCurrentId st + 1 |}).
Proof.
  intros (Hpos & Hkeys & _) user. unfold createUser. fold user.
  rewrite set_fresh; [done |].
  rewrite Hkeys, seq_snoc_bound. lia.
Qed.

Lemma wellKeyed_createUser ins st :
  wellKeyed st → wellKeyed (snd (createUser ins st)).
Proof.
  intros Hwk. rewrite (createUser_eq ins st Hwk). simpl.
  destruct Hwk as (Hpos & Hkeys & Hids).
  unfold wellKeyed. simpl. split; [lia |]. split.
  - unfold JSMap.keys in *. rewrite map_app, Hkeys. simpl.
    replace (userCurrentId st + 1 - 1) with (S (userCurrentId st - 1)) by lia.
    rewrite seq_S. do 2 f_equal. lia.
  - apply Forall_app. split; [done |]. by constructor.
Qed.

Lemma reachable_wellKeyed st : reachable st → wellKeyed st.
Proof.
  induction 1 as [| ins st _ IH]; [| by apply wellKeyed_createUser].
  split; [simpl; lia |]. split; [done | constructor].
Qed.

Lemma wellKeyed_NoDup st : wellKeyed st → NoDup (JSMap.keys (users st)).
Proof. intros (_ & -> & _). apply NoDup_ListNoDup, seq_NoDup. Qed.

(** X9: in a store built by [createUser] calls, [createUser] hands
    out the id the counter shows, an id no stored user has;
    [getUser] on that id then finds exactly the new user, every other
    id gives what it gave before, so no user is ever overwritten, and
    the counter has moved on by one. *)
Theorem createUser_getUser ins st :
  reachable st →
  let created := createUser ins st in
  id (fst created) = userCurrentId st ∧
  username (fst created) = i_username ins ∧
  columns (fst created) = i_columns ins ∧
  getUser (id (fst created)) st = None ∧
  getUser (id (fst created)) (snd created) = Some (fst created) ∧
  (∀ k, k ≠ id (fst created) → getUser k (snd created) = getUser k st) ∧
  userCurrentId (snd created) = userCurrentId st + 1.
Proof.
  intros Hr created. subst created.
  pose proof (reachable_wellKeyed st Hr) as Hwk.
  rewrite (createUser_eq ins st Hwk). simpl.
  assert (Hfresh : userCurrentId st ∉ JSMap.keys (users st)).
  { destruct Hwk as (_ & -> & _). rewrite seq_snoc_bound. lia. }
  unfold getUser. simpl. repeat split; try done.
  - by apply get_None.
  - by apply get_snoc_eq.
  - intros k Hne. by apply get_snoc_ne.
Qed.

(** X10: in a store built by [createUser] calls, [getUserByUsername]
    answers with the user that was created first under that name:
    what it finds carries the name and is the user stored under its
    own id, it finds nothing exactly when no stored user has the name,
    and after a further [createUser] it still gives the earlier user
    if there was one, the new user if the name is the new user's and
    was unused, and nothing otherwise.  A second user with a name in
    use is accepted and stored. *)
Theorem getUserByUsername_first ins st (name : jsstring) :
  reachable st →
  (∀ u, getUserByUsername name st = Some u →
     username u = name ∧ getUser (id u) st = Some u) ∧
  (getUserByUsername name st = None ↔
     ∀ k u, getUser k st = Some u → username u ≠ name) ∧
  getUserByUsername name (snd (createUser ins st)) =
    match getUserByUsername name st with
    | Some u => Some u
    | None => if decide (i_username ins = name)
              then Some (fst (createUser ins st)) else None
    end.
Proof.
  intros Hr. pose proof (reachable_wellKeyed st Hr) as Hwk.
  pose proof (wellKeyed_NoDup st Hwk) as Hnd.
  unfold getUserByUsername, getUser. split; [| split].
  - intros u Hu. apply find_values_Some in Hu as (HP & k & Hin).
    apply bool_decide_eq_true in HP. split; [done |].
    destruct Hwk as (_ & _ & Hids).
    rewrite Forall_forall in Hids.
    pose proof (Hids _ Hin) as E. simpl in E. rewrite E.
    by apply get_entry.
  - rewrite find_values_None. split.
    + intros H k u Hget Hname.
      assert (Hin : (k, u) ∈ users st).
      { clear -Hget. induction (users st) as [|[k' v'] m IH]; [done |].
        simpl in Hget. destruct (Nat.eqb_spec k' k) as [-> | _].
        - injection Hget as ->. by left.
        - right. auto. }
      specialize (H _ _ Hin). apply bool_decide_eq_false in H. done.
    + intros H k u Hin. apply bool_decide_eq_false.
      apply (H k). by apply get_entry.
  - rewrite (createUser_eq ins st Hwk). simpl.
    unfold JSMap.values. rewrite map_app. simpl.
    rewrite find_snoc. simpl.
    destruct (List.find _ _); [done |].
    destruct (decide (i_username ins = name)) as [-> | Hne].
    + by rewrite bool_decide_eq_true_2.
    + by rewrite bool_decide_eq_false_2.
Qed.

End UserStore.

Lemma createUser_getUser_witness :
  let ins := {| Users.i_username := JS.str "ana";
                Users.i_columns := JS.str "secret" |} in
  let created := Users.createUser ins (snd (Users.createUser ins Users.empty)) in
  Users.id (fst created) = 2 ∧
  Users.getUser 2 (snd created) = Some (fst created).
Proof.
  intros ins created.
  destruct (createUser_getUser ins (snd (Users.createUser ins Users.empty))
              (Users.reachable_create ins Users.empty Users.reachable_empty))
    as (Hid & _ & _ & _ & Hget & _).
  split; [exact Hid |]. exact Hget.
Defined.

Lemma getUserByUsername_first_witness :
  let first := {| Users.i_username := JS.str "ana";
                  Users.i_columns := JS.str "one" |} in
  let second := {| Users.i_username := JS.str "ana";
                   Users.i_columns := JS.str "two" |} in
  let st := snd (Users.createUser first Users.empty) in
  Users.getUserByUsername (JS.str "ana") (snd (Users.createUser second st))
    = Some (fst (Users.createUser first Users.empty)).
Proof.
  intros first second st.
  destruct (getUserByUsername_first second st (JS.str "ana")
              (Users.reachable_create first Users.empty Users.reachable_empty))
    as (_ & _ & ->).
  reflexivity.
Defined.

(** ** File uploads *)
Section UploadStore.
Import FileUploads.

Lemma saveFileUpload_eq (now : Z) (f : InsertFileUpload) (st : t) :
  wellKeyed st →
  let upload := {| originalName := i_originalName f;
                   storagePath := i_storagePath f;
                   fileType := i_fileType f; fileSize := i_fileSize f;
                   id := fileUploadCurrentId st; createdAt := now |} in
  saveFileUpload now f st =
    (upload, {| fileUploads := fileUploads st ++ [(fileUploadCurrentId st, upload)];
                fileUploadCurrentId := fileUploadCurrentId st + 1 |}).
Proof.
  intros (Hpos & Hkeys & _) upload. unfold saveFileUpload. fold upload.
  rewrite set_fresh; [done |].
  rewrite Hkeys, seq_snoc_bound. lia.
Qed.

Lemma wellKeyed_saveFileUpload (now : Z) (f : InsertFileUpload) (st : t) :
  wellKeyed st → wellKeyed (snd (saveFileUpload now f st)).
Proof.
  intros Hwk. rewrite (saveFileUpload_eq now f st Hwk). simpl.
  destruct Hwk as (Hpos & Hkeys & Hids).
  unfold wellKeyed. simpl. split; [lia |]. split.
  - unfold JSMap.keys in *. rewrite map_app, Hkeys. simpl.
    replace (fileUploadCurrentId st + 1 - 1)
      with (S (fileUploadCurrentId st - 1)) by lia.
    rewrite seq_S. do 2 f_equal. lia.
  - apply Forall_app. split; [done |]. by constructor.
Qed.

Lemma reachable_uploads_wellKeyed (st : t) : reachable st → wellKeyed st.
Proof.
  induction 1 as [| now f st _ IH]; [| by apply wellKeyed_saveFileUpload].
  split; [simpl; lia |]. split; [done | constructor].
Qed.

Lemma saveFileUpload_found (now : Z) (f : InsertFileUpload) (st : t) :
  wellKeyed st →
  ∃ u, getFileUploadByPath (i_storagePath f) (snd (saveFileUpload now f st))
         = Some u ∧
       storagePath u = i_storagePath f.
Proof.
  intros Hwk. rewrite (saveFileUpload_eq now f st Hwk).
  unfold getFileUploadByPath. simpl.
  unfold JSMap.values. rewrite map_app. simpl. rewrite find_snoc. simpl.
  destruct (List.find _ _) as [u|] eqn:E.
  - exists u. split; [done |].
    apply find_some in E as [_ E]. by apply bool_decide_eq_true in E.
  - rewrite bool_decide_eq_true_2 by done. eauto.
Qed.

(** X11: in a store built by [saveFileUpload] calls, a saved upload
    gets the id the counter shows and the given time stamp, and
    [getFileUploadByPath] on its storage path afterwards finds an
    upload with that path: the one saved earliest under the path, so
    the new one only if the path was unused.  Look-ups of other paths
    are unchanged. *)
Theorem saveFileUpload_getFileUploadByPath (now : Z) (f : InsertFileUpload)
    (st : t) :
  reachable st →
  let saved := saveFileUpload now f st in
  id (fst saved) = fileUploadCurrentId st ∧
  createdAt (fst saved) = now ∧
  storagePath (fst saved) = i_storagePath f ∧
  getFileUploadByPath (i_storagePath f) (snd saved) =
    Some (default (fst saved) (getFileUploadByPath (i_storagePath f) st)) ∧
  (∃ u, getFileUploadByPath (i_storagePath f) (snd saved) = Some u ∧
        storagePath u = i_storagePath f) ∧
  (∀ path, path ≠ i_storagePath f →
     getFileUploadByPath path (snd saved) = getFileUploadByPath path st) ∧
  fileUploadCurrentId (snd saved) = fileUploadCurrentId st + 1.
Proof.
  intros Hr saved. subst saved.
  pose proof (reachable_uploads_wellKeyed st Hr) as Hwk.
  rewrite (saveFileUpload_eq now f st Hwk). simpl.
  unfold getFileUploadByPath. simpl.
  unfold JSMap.values. rewrite map_app. simpl.
  assert (Hpath : ∀ path,
            List.find (λ upload, bool_decide (storagePath upload = path))
              (map snd (fileUploads st) ++
                 [{| originalName := i_originalName f;
                     storagePath := i_storagePath f;
                     fileType := i_fileType f; fileSize := i_fileSize f;
                     id := fileUploadCurrentId st; createdAt := now |}]) =
            match List.find (λ upload, bool_decide (storagePath upload = path))
                    (map snd (fileUploads st)) with
            | Some y => Some y
            | None => if decide (i_storagePath f = path) then
                        Some {| originalName := i_originalName f;
                                storagePath := i_storagePath f;
                                fileType := i_fileType f;
                                fileSize := i_fileSize f;
                                id := fileUploadCurrentId st;
                                createdAt := now |}
                      else None
            end).
  { intros path. rewrite find_snoc. simpl.
    destruct (List.find _ _); [done |].
    destruct (decide (i_storagePath f = path)) as [-> | Hne].
    - by rewrite bool_decide_eq_true_2.
    - by rewrite bool_decide_eq_false_2. }
  repeat split; try done.
  - rewrite Hpath. destruct (List.find _ _); simpl; [done |].
    by rewrite decide_True.
  - rewrite Hpath.
    destruct (List.find _ _) as [u|] eqn:E.
    + exists u. split; [done |].
      apply find_some in E as [_ E]. by apply bool_decide_eq_true in E.
    + rewrite decide_True by done. eauto.
  - intros path Hne. rewrite Hpath.
    destruct (List.find _ _); [done |]. by rewrite decide_False.
Qed.

Lemma saveFileUpload_getFileUploadByPath_witness :
  let f := {| i_originalName := JS.str "m.txt";
              i_storagePath := JS.str "uploads/messages/file-1-m.txt";
              i_fileType := JS.str "messages"; i_fileSize := 12 |} in
  getFileUploadByPath (JS.str "uploads/messages/file-1-m.txt")
    (snd (saveFileUpload 8 f empty))
  = Some (fst (saveFileUpload 8 f empty)).
Proof.
  intros f.
  destruct (saveFileUpload_getFileUploadByPath 8 f empty reachable_empty)
    as (_ & _ & _ & H & _).
  exact H.
Defined.

(** X12: the upload route answers 200 exactly when multer produced a
    file and the body carries a non-empty type; it then stores one
    upload record holding the file's original name, path and size and
    the given type, reports the file's path, and a look-up of that path
    finds a record with it; otherwise it answers 400 and stores
    nothing. *)
Theorem uploadHandler_cases (now : Z) (file : option MoreRoutes.UploadedFile)
    (type : option jsstring) (st : t) :
  reachable st →
  let answer := MoreRoutes.uploadHandler now file type st in
  (MoreRoutes.u_status (fst answer) = 200 ↔
     is_Some file ∧ ∃ c fileType, type = Some (c :: fileType)) ∧
  (MoreRoutes.u_status (fst answer) ≠ 200 →
     MoreRoutes.u_status (fst answer) = 400 ∧ snd answer = st) ∧
  (∀ f fileType, file = Some f → type = Some fileType → fileType ≠ [] →
     MoreRoutes.u_filePath (fst answer) = Some (MoreRoutes.path f) ∧
     snd answer =
       snd (saveFileUpload now
              {| i_originalName := MoreRoutes.originalname f;
                 i_storagePath := MoreRoutes.path f;
                 i_fileType := fileType;
                 i_fileSize := MoreRoutes.size f |} st) ∧
     length (fileUploads (snd answer)) = S (length (fileUploads st)) ∧
     ∃ u, getFileUploadByPath (MoreRoutes.path f) (snd answer) = Some u ∧
          storagePath u = MoreRoutes.path f).
Proof.
  intros Hr answer. subst answer. unfold MoreRoutes.uploadHandler.
  split; [| split].
  - destruct file as [f|], type as [[|c ft]|]; simpl;
      (split; [try discriminate; intros _; split; eauto
              | intros [[? ?] (? & ? & ?)]; try discriminate; done]).
  - destruct file as [f|], type as [[|c ft]|]; simpl; done.
  - intros f [|c ft] -> -> Hne; [done |].
    set (ins := {| i_originalName := _ |}).
    pose proof (saveFileUpload_found now ins st
                  (reachable_uploads_wellKeyed st Hr)) as Hfound.
    pose proof (saveFileUpload_eq now ins st
                  (reachable_uploads_wellKeyed st Hr)) as E.
    simpl in E. destruct (saveFileUpload now ins st) as [u st1] eqn:Es.
    simpl in *. injection E as _ ->.
    repeat split; try done.
    simpl. rewrite length_app. simpl. lia.
Qed.

Lemma uploadHandler_cases_witness :
  let f := {| MoreRoutes.originalname := JS.str "m.txt";
              MoreRoutes.path := JS.str "uploads/messages/file-1-m.txt";
              MoreRoutes.size := 12 |} in
  MoreRoutes.u_status
    (fst (MoreRoutes.uploadHandler 8 (Some f) (Some (JS.str "messages")) empty))
    = 200 ∧
  MoreRoutes.uploadHandler 8 (Some f) None empty
    = ({| MoreRoutes.u_status := 400; MoreRoutes.u_success := false;
          MoreRoutes.u_filePath := None |}, empty).
Proof.
  intros f.
  destruct (uploadHandler_cases 8 (Some f) (Some (JS.str "messages")) empty
              reachable_empty) as (H200 & _ & _).
  split.
  - apply H200. split; [done |]. by eexists _, _.
  - reflexivity.
Defined.

End UploadStore.

(** ** Acquiring the client and starting *)
Section Acquire.

(** X13: [createWhatsAppClient] yields a client exactly when the
    connection type is "creds" and the credentials file of the
    session is readable JSON, or the type is "phoneId" with a
    non-empty phone id; in production it needs in addition (for
    "phoneId" also the credentials file) that the library loads and
    the client initializes.  A client it yields is the simulated one
    exactly outside production and carries a fresh id.  When it throws
    it has constructed no client, except in production when
    [initialize] fails after the client was constructed. *)
Theorem createWhatsAppClient_cases (env : Env)
    (session : Schema.WhatsappSession) (w : World) :
  let r := createWhatsAppClient env session w in
  let sid := Schema.sessionId session in
  let real := libraryOk env && initializeOk env in
  (is_Some (fst r) ↔
     (Schema.connectionType session = JS.str "creds" ∧
      credsValid env sid = true ∧
      (isProduction env = true → real = true)) ∨
     (Schema.connectionType session = JS.str "phoneId" ∧
      (∃ c p, Schema.phoneId session = Some (c :: p)) ∧
      (isProduction env = true → credsValid env sid = true ∧ real = true))) ∧
  (∀ c, fst r = Some c →
     simulated c = negb (isProduction env) ∧
     clientId c = clientsCreated w ∧
     clientsCreated (snd r) = S (clientsCreated w)) ∧
  (fst r = None →
     clientsCreated (snd r) = clientsCreated w ∨
     (isProduction env = true ∧ libraryOk env = true ∧
      initializeOk env = false ∧
      clientsCreated (snd r) = S (clientsCreated w))).
Proof.
  unfold createWhatsAppClient, realClient, newClient. simpl.
  assert (Hne : JS.str "creds" ≠ JS.str "phoneId") by discriminate.
  destruct (decide (Schema.connectionType session = JS.str "creds")) as [Ec|Ec];
    [| destruct (decide (Schema.connectionType session = JS.str "phoneId"))
         as [Ep|Ep]; [destruct (Schema.phoneId session) as [[|c p]|] eqn:Eid |]];
    destruct (credsValid env (Schema.sessionId session)) eqn:Ev;
    destruct (isProduction env) eqn:Eprod;
    destruct (libraryOk env) eqn:El; destruct (initializeOk env) eqn:Ei;
    simpl; (split; [split |]);
    try (intros [? ?]; discriminate);
    try (intros _; eauto 10; fail);
    try (intros [(? & ? & H) | (? & H & H')]; try congruence;
         try (specialize (H eq_refl); discriminate);
         try (destruct H as (? & ? & ?); discriminate);
         try (destruct (H' eq_refl); discriminate); fail);
    try (split; [by intros c0 [= <-] | by auto 10]);
    try (intros _; first
           [ left; repeat split; try done; by intros
           | right; repeat split; try done; eauto; by intros ]).
Qed.

Lemma createWhatsAppClient_cases_witness :
  let phone := {| Schema.id := 1; Schema.sessionId := Ex.s1;
                  Schema.phoneNumber := JS.str "40700000000";
                  Schema.connectionType := JS.str "phoneId";
                  Schema.phoneId := Some (JS.str "4070");
                  Schema.targets := JS.str "a";
                  Schema.messagePath := JS.str "m.txt";
                  Schema.messageText := JS.str "hi";
                  Schema.delay := 1; Schema.messageCount := 0;
                  Schema.isActive := false; Schema.createdAt := 0;
                  Schema.updatedAt := 0 |} in
  let noCreds := {| isProduction := false; readFile := λ _, None;
                    credsValid := λ _, false; libraryOk := false;
                    initializeOk := false |} in
  ∃ c, fst (createWhatsAppClient noCreds phone init) = Some c ∧
       simulated c = true ∧ clientId c = 0.
Proof.
  intros phone noCreds.
  destruct (createWhatsAppClient_cases noCreds phone init) as (Hiff & Hsome & _).
  destruct (proj2 Hiff) as [c Hc].
  { right. split; [reflexivity |]. split; [by eexists _, _ | discriminate]. }
  exists c. split; [exact Hc |].
  destruct (Hsome c Hc) as (Hs & Hi & _). by split.
Defined.

End Acquire.

(** ** Outcomes of a start *)
Section StartOutcome.

(** X14: whenever [startSession] answers [false], whatever the cause
    (blank targets, an unreadable or empty message file, a client that
    could not be acquired), the id has no table entry afterwards, the
    other entries are as before, no timer has been armed, and the
    store and the sent messages are untouched. *)
Theorem failed_start_leaves_no_session (env : Env) (destroyOk : bool)
    (session : Schema.WhatsappSession) (w w' : World) :
  startSession env destroyOk session w = (false, w') →
  let sid := Schema.sessionId session in
  activeSessions w' = delete sid (activeSessions w) ∧
  activeSessions w' !! sid = None ∧
  timers w' ⊆ timers w ∧ nextTimer w' = nextTimer w ∧
  storage w' = storage w ∧ outbox w' = outbox w.
Proof.
  intros H sid.
  destruct (startSession_false _ _ _ _ _ H) as (Hst & Htab & Htm & Hnt & _ & Hout & _).
  destruct (stopIfRunning_frame destroyOk sid w)
    as (Hst0 & Hdel & Hsub & Hnt0 & _ & Hout0).
  fold sid in Hst, Htab, Htm, Hnt, Hout.
  rewrite Htab, Htm, Hnt, Hst, Hout, Hdel.
  repeat split; try done. apply lookup_delete_eq.
Qed.

Lemma failed_start_leaves_no_session_witness :
  let unreadable := Ex.session "a,b" "" in
  let w := snd (startSession Ex.development true Ex.ab_hibye init) in
  fst (startSession Ex.development true unreadable w) = false ∧
  activeSessions (snd (startSession Ex.development true unreadable w)) !! Ex.s1
    = None.
Proof.
  intros unreadable w.
  destruct (startSession Ex.development true unreadable w) as [b w'] eqn:E.
  assert (Hb : b = false) by (by vm_compute in E; injection E as <- _).
  subst b. split; [done |].
  by destruct (failed_start_leaves_no_session _ _ _ _ _ E) as (_ & H & _).
Defined.

(** X15: [startSession] answers [true] exactly when the targets parse
    to at least one entry, the messages resolve to at least one line
    and the client is acquired; the entry it then registers holds that
    client, the parsed lists, the session's delay and both cursors at
    0, and the timer it arms fires for the session id with the period
    Node gives a request of delay times 1000 milliseconds: that many
    milliseconds for a delay of 1 to 2147483 seconds, one millisecond
    for any other delay. *)
Theorem startSession_succeeds_iff (env : Env) (destroyOk : bool)
    (session : Schema.WhatsappSession) (w : World) :
  let sid := Schema.sessionId session in
  let r := startSession env destroyOk session w in
  (fst r = true ↔
     parseTargets (Schema.targets session) ≠ [] ∧
     (∃ m ms, resolveMessages env session = Some (m :: ms)) ∧
     is_Some (fst (createWhatsAppClient env session
                     (stopIfRunning destroyOk sid w)))) ∧
  (fst r = true →
     ∃ c ms h,
       fst (createWhatsAppClient env session (stopIfRunning destroyOk sid w))
         = Some c ∧
       resolveMessages env session = Some ms ∧
       activeSessions (snd r) !! sid =
         Some {| client := c; interval := Some h;
                 targets := parseTargets (Schema.targets session);
                 messages := ms; delay := Schema.delay session;
                 messageIndex := 0; targetIndex := 0 |} ∧
       timers (snd r) !! h =
         Some {| callbackSession := sid;
                 period := if decide (1 ≤ Schema.delay session ≤ 2147483)%Z
                           then Schema.delay session * 1000 else 1 |} ∧
       h = nextTimer w ∧ nextTimer (snd r) = S h).
Proof.
  intros sid r. split.
  - subst r. unfold startSession. fold sid.
    destruct (parseTargets (Schema.targets session)) as [|t ts].
    { split; [discriminate | by intros [? _]]. }
    destruct (resolveMessages env session) as [[|m ms]|].
    + split; [discriminate | by intros (_ & (? & ? & ?) & _)].
    + destruct (createWhatsAppClient env session _) as [[c|] w1]; simpl.
      * split; [| done]. intros _. repeat split; eauto.
      * split; [discriminate |]. by intros (_ & _ & [? ?]).
    + split; [discriminate | by intros (_ & (? & ? & ?) & _)].
  - intros Htrue.
    destruct r as [b w'] eqn:E. simpl in Htrue. subst b.
    destruct (startSession_true _ _ _ _ _ E)
      as (c & w1 & _ & _ & Hc & ms & Hms & ->). fold sid in Hc.
    exists c, ms, (nextTimer w1). rewrite Hc. simpl.
    rewrite !lookup_insert_eq, timerDelay_seconds.
    apply createWhatsAppClient_frame in Hc as (_ & _ & _ & Hnt & _).
    destruct (stopIfRunning_frame destroyOk sid w) as (_ & _ & _ & Hnt0 & _).
    rewrite Hnt, Hnt0. done.
Qed.

Lemma startSession_succeeds_iff_witness :
  fst (startSession Ex.development true Ex.ab_hibye init) = true ∧
  timers (snd (startSession Ex.development true Ex.ab_hibye init)) !! 0
    = Some {| callbackSession := Ex.s1; period := 1000 |}.
Proof.
  destruct (startSession_succeeds_iff Ex.development true Ex.ab_hibye init)
    as [Hiff Hentry].
  assert (Hok : fst (startSession Ex.development true Ex.ab_hibye init) = true).
  { apply Hiff. split; [discriminate |].
    split; [by eexists _, _ | by eexists]. }
  split; [exact Hok |].
  destruct (Hentry Hok) as (c & ms & h & _ & _ & _ & Htm & -> & _).
  exact Htm.
Defined.

End StartOutcome.

(** ** What a run of dispatch steps adds up to *)
Section Totals.
Import Sessions.

Lemma messageCountOf_increment (now : Z) (sid : jsstring) (w : World) :
  messageCountOf sid
    (setStorage (snd (MemStorage.incrementMessageCount now sid (storage w))) w)
  = (λ n, n + 1) <$> messageCountOf sid w.
Proof.
  unfold messageCountOf, MemStorage.incrementMessageCount. simpl.
  destruct (MemStorage.sessions (storage w) !! sid) as [r|] eqn:E; simpl.
  - by rewrite lookup_insert_eq.
  - by rewrite E.
Qed.

Lemma successes_all (c : Client) (ticks : list (bool * Z)) :
  allResolve c ticks → successes c ticks = length ticks.
Proof.
  unfold successes, allResolve.
  induction ticks as [|x ticks IH]; intros Hall; [done |]. simpl.
  rewrite (Hall x) by (by left). simpl. f_equal.
  apply IH. intros y Hy. apply Hall. by right.
Qed.

Lemma dispatch_totals (sid : jsstring) (ticks : list (bool * Z)) :
  ∀ (w : World) (sd : SessionData),
    activeSessions w !! sid = Some sd →
    messageIndex sd < length (messages sd) →
    targetIndex sd < length (targets sd) →
    ∃ sent,
      outbox (dispatch sid ticks w) = outbox w ++ sent ∧
      length sent = length ticks ∧
      Forall (λ d, via d = client sd ∧
                   (∃ t m, t ∈ targets sd ∧ m ∈ messages sd ∧
                           to d = formatTarget t ∧ body d = Some m) ∧
                   JS.includes (JS.str "@c.us") (to d) = true) sent ∧
      messageCountOf sid (dispatch sid ticks w)
        = (λ n, n + successes (client sd) ticks) <$> messageCountOf sid w.
Proof.
  induction ticks as [|[ok now] ticks IH]; intros w sd Hsd HM HT.
  - exists []. simpl. rewrite app_nil_r. repeat split; try done.
    unfold successes. simpl. destruct (messageCountOf sid w); simpl; [| done].
    f_equal. lia.
  - simpl. fold (dispatch sid ticks (sendNextMessage ok now sid w)).
    destruct (lookup_lt_is_Some_2 _ _ HT) as [t Ht].
    destruct (lookup_lt_is_Some_2 _ _ HM) as [m Hm].
    pose proof (sendNextMessage_live ok now sid w sd t Hsd Ht) as Estep.
    simpl in Estep. rewrite Hm in Estep.
    assert (Hd : via (delivery sd t (Some m)) = client sd ∧
                 (∃ t' m', t' ∈ targets sd ∧ m' ∈ messages sd ∧
                           to (delivery sd t (Some m)) = formatTarget t' ∧
                           body (delivery sd t (Some m)) = Some m') ∧
                 JS.includes (JS.str "@c.us") (to (delivery sd t (Some m)))
                   = true).
    { simpl. split; [done |]. split.
      { exists t, m. split; [by eapply list_elem_of_lookup_2 |].
        split; [by eapply list_elem_of_lookup_2 | done]. }
      unfold formatTarget.
      destruct (JS.includes (JS.str "@c.us") t) eqn:E; [done |].
      apply includes_app_r. }
    unfold successes. simpl.
    destruct (settles (client sd) ok) eqn:Eok.
    + destruct (advance_in_range sd HM HT) as [HM' HT'].
      destruct (IH (sendNextMessage ok now sid w) (advance sd))
        as (sent & Hout & Hlen & Hall & Hcount); try done.
      { rewrite Estep. simpl. apply lookup_insert_eq. }
      exists (delivery sd t (Some m) :: sent).
      rewrite Hout, Hcount, Estep. simpl.
      rewrite <- app_assoc. simpl. repeat split; try done.
      * by rewrite Hlen.
      * by constructor.
      * fold (setStorage
                (snd (MemStorage.incrementMessageCount now sid (storage w))) w).
        unfold messageCountOf at 1. simpl.
        change (Schema.messageCount <$>
                  MemStorage.sessions
                    (snd (MemStorage.incrementMessageCount now sid (storage w)))
                    !! sid)
          with (messageCountOf sid
                  (setStorage
                     (snd (MemStorage.incrementMessageCount now sid (storage w)))
                     w)).
        rewrite messageCountOf_increment.
        fold (successes (client sd) ticks).
        destruct (messageCountOf sid w); simpl; [| done]. f_equal. lia.
    + destruct (IH (sendNextMessage ok now sid w) sd)
        as (sent & Hout & Hlen & Hall & Hcount); try done.
      { by rewrite Estep. }
      exists (delivery sd t (Some m) :: sent).
      rewrite Hout, Hcount, Estep. simpl.
      rewrite <- app_assoc. simpl. repeat split; try done.
      * by rewrite Hlen.
      * by constructor.
Qed.

(** X16: over any run of dispatch steps of a session started by
    [startSession], each returning before the next is entered, every
    step makes exactly one [sendMessage] call, through the session's
    client, with a message of the session's list as text and the
    formatted form of a target of the session's list, which contains
    "@c.us", as address; and the persisted count, when the session has
    a record, grows by the number of sends that resolved, not by the
    number of attempts. *)
Theorem dispatch_attempts_and_count (env : Env) (destroyOk : bool)
    (session : Schema.WhatsappSession) (w w0 : World)
    (ticks : list (bool * Z)) :
  startSession env destroyOk session w = (true, w0) →
  let sid := Schema.sessionId session in
  ∃ sd sent,
    activeSessions w0 !! sid = Some sd ∧
    outbox (dispatch sid ticks w0) = outbox w0 ++ sent ∧
    length sent = length ticks ∧
    Forall (λ d, via d = client sd ∧
                 (∃ t m, t ∈ targets sd ∧ m ∈ messages sd ∧
                         to d = formatTarget t ∧ body d = Some m) ∧
                 JS.includes (JS.str "@c.us") (to d) = true) sent ∧
    messageCountOf sid (dispatch sid ticks w0)
      = (λ n, n + successes (client sd) ticks) <$> messageCountOf sid w0 ∧
    successes (client sd) ticks ≤ length ticks.
Proof.
  intros Hstart sid.
  destruct (startSession_true _ _ _ _ _ Hstart)
    as (c & w1 & Htg & Hne & _ & ms & Hms & Ew). fold sid in Ew.
  assert (Hsd : activeSessions w0 !! sid = Some
            {| client := c; interval := Some (nextTimer w1);
               targets := parseTargets (Schema.targets session);
               messages := ms; delay := Schema.delay session;
               messageIndex := 0; targetIndex := 0 |})
    by (rewrite Ew; simpl; apply lookup_insert_eq).
  destruct (dispatch_totals sid ticks w0 _ Hsd)
    as (sent & Hout & Hlen & Hall & Hcount).
  { simpl. destruct ms; [congruence | simpl; lia]. }
  { simpl. destruct (parseTargets _); [done | simpl; lia]. }
  eexists _, sent. split; [exact Hsd |]. repeat split; try done.
  unfold successes. simpl. clear.
  induction ticks as [|x ticks IH]; simpl; [lia |].
  destruct (settles c x.1); simpl; lia.
Qed.

Lemma dispatch_attempts_and_count_witness :
  let w0 := snd (Routes.startHandler Ex.production true 0 Ex.s1 Ex.body init) in
  let ticks := [(true, 1%Z); (false, 2%Z); (true, 3%Z)] in
  length (outbox (dispatch Ex.s1 ticks w0)) = 3 ∧
  messageCountOf Ex.s1 (dispatch Ex.s1 ticks w0) = Some 2.
Proof.
  intros w0 ticks.
  destruct (dispatch_attempts_and_count Ex.production true
              (fst (MemStorage.createSession 0
                      (Routes.startRecord Ex.s1 Ex.body) MemStorage.empty))
              (setStorage
                 (snd (MemStorage.createSession 0
                         (Routes.startRecord Ex.s1 Ex.body) MemStorage.empty))
                 init)
              w0 ticks eq_refl)
    as (sd & sent & Hsd & Hout & Hlen & _ & Hcount & _).
  split.
  - change (dispatch (Schema.sessionId _) ticks w0)
      with (dispatch Ex.s1 ticks w0) in Hout.
    rewrite Hout, length_app, Hlen. reflexivity.
  - vm_compute in Hsd. injection Hsd as <-. exact Hcount.
Defined.

Lemma cycle_arith (M T i j : nat) :
  i < T → j < M →
  (i * M + j) mod M = j ∧ ((i * M + j) / M) mod T = i.
Proof.
  intros Hi Hj. assert (HM : M ≠ 0) by lia.
  rewrite (Nat.add_comm (i * M) j). split.
  - rewrite Nat.Div0.mod_add. by apply Nat.mod_small.
  - rewrite Nat.div_add by done.
    rewrite (Nat.div_small j M) by done. by apply Nat.mod_small.
Qed.

Lemma seek_cycle (sd : SessionData) (i j : nat) :
  i < length (targets sd) → j < length (messages sd) →
  messageIndex (seek (i * length (messages sd) + j) sd) = j ∧
  targetIndex (seek (i * length (messages sd) + j) sd) = i.
Proof. intros Hi Hj. by apply cycle_arith. Qed.

Lemma period_arith (M T p : nat) :
  0 < M →
  (p + T * M) mod M = p mod M ∧ ((p + T * M) / M) mod T = (p / M) mod T.
Proof.
  intros HM. split.
  - by rewrite Nat.Div0.mod_add.
  - rewrite Nat.div_add by lia.
    replace (p / M + T) with (p / M + 1 * T) by lia.
    by rewrite Nat.Div0.mod_add.
Qed.

Lemma seek_period (sd : SessionData) (p : nat) :
  0 < length (messages sd) →
  seek (p + length (targets sd) * length (messages sd)) sd = seek p sd.
Proof.
  intros HM. unfold seek.
  destruct (period_arith (length (messages sd)) (length (targets sd)) p HM)
    as [-> ->].
  reflexivity.
Qed.

(** X17: in a run of dispatch steps of a started session in which each
    step returns before the next is entered and nothing else is called
    for the session, and while every send resolves, the session walks
    through all pairs in a fixed cycle: with T targets and M messages, the
    step entered after i * M + j earlier steps (i < T, j < M) reads
    target number i and message number j, so within T * M steps each
    target gets each message exactly once, target by target; and after
    T * M further steps the cursor pair is where it was. *)
Theorem round_robin_cycle (env : Env) (destroyOk : bool)
    (session : Schema.WhatsappSession) (w w0 : World)
    (ticks more : list (bool * Z)) :
  startSession env destroyOk session w = (true, w0) →
  let sid := Schema.sessionId session in
  ∃ sd, activeSessions w0 !! sid = Some sd ∧
    (allResolve (client sd) ticks →
       (∀ i j, i < length (targets sd) → j < length (messages sd) →
          length ticks = i * length (messages sd) + j →
          ∃ t m, targets sd !! i = Some t ∧ messages sd !! j = Some m ∧
                 visited sid (dispatch sid ticks w0) = Some (t, m)) ∧
       (allResolve (client sd) more →
        length more = length (targets sd) * length (messages sd) →
        activeSessions (dispatch sid (ticks ++ more) w0) !! sid
          = activeSessions (dispatch sid ticks w0) !! sid)).
Proof.
  intros Hstart sid.
  destruct (startSession_true _ _ _ _ _ Hstart)
    as (c & w1 & Htg & Hne & _ & ms & Hms & Ew). fold sid in Ew.
  set (sd := {| client := c; interval := Some (nextTimer w1);
                targets := parseTargets (Schema.targets session);
                messages := ms; delay := Schema.delay session;
                messageIndex := 0; targetIndex := 0 |}).
  assert (HM : 0 < length (messages sd))
    by (simpl; destruct ms; [congruence | simpl; lia]).
  assert (HT : 0 < length (targets sd))
    by (simpl; destruct (parseTargets _); [done | simpl; lia]).
  assert (Hsd0 : sd = seek 0 sd).
  { unfold seek. simpl. rewrite Nat.Div0.mod_0_l, Nat.Div0.div_0_l.
    by rewrite Nat.Div0.mod_0_l. }
  assert (Hw0 : activeSessions w0 !! sid = Some (seek 0 sd))
    by (rewrite <- Hsd0, Ew; simpl; apply lookup_insert_eq).
  exists sd. split; [rewrite Hw0; by rewrite <- Hsd0 |].
  intros Hall.
  pose proof (dispatch_seek sid sd ticks HM HT w0 0 Hw0) as Hk.
  rewrite (successes_all _ _ Hall), Nat.add_0_l in Hk. split.
  - intros i j Hi Hj Hlen.
    destruct (seek_cycle sd i j Hi Hj) as [Emi Eti].
    destruct (lookup_lt_is_Some_2 _ _ Hi) as [t Ht].
    destruct (lookup_lt_is_Some_2 _ _ Hj) as [m Hm].
    exists t, m. split; [done |]. split; [done |].
    unfold visited. rewrite Hk, Hlen.
    change (targets (seek _ sd)) with (targets sd).
    change (messages (seek _ sd)) with (messages sd).
    by rewrite Emi, Eti, Ht, Hm.
  - intros Hmore Hlen.
    assert (Hall' : allResolve (client sd) (ticks ++ more)).
    { intros x [Hx | Hx]%elem_of_app; auto. }
    pose proof (dispatch_seek sid sd (ticks ++ more) HM HT w0 0 Hw0) as Hk'.
    rewrite (successes_all _ _ Hall'), length_app, Hlen, Nat.add_0_l in Hk'.
    by rewrite Hk', Hk, seek_period.
Qed.

Lemma round_robin_cycle_witness :
  let w0 := snd (startSession Ex.development true Ex.ab_hibye init) in
  let ticks := [(false, 1%Z); (false, 2%Z); (false, 3%Z)] in
  visited Ex.s1 (dispatch Ex.s1 ticks w0) = Some (JS.str "b", JS.str "bye").
Proof.
  intros w0 ticks.
  destruct (round_robin_cycle Ex.development true Ex.ab_hibye init w0
              ticks [] eq_refl) as (sd & Hsd & H).
  vm_compute in Hsd. injection Hsd as <-.
  destruct H as [Hpair _].
  { intros x Hx. reflexivity. }
  destruct (Hpair 1 1) as (t & m & Ht & Hm & Hv);
    [simpl; lia | simpl; lia | reflexivity |].
  vm_compute in Ht, Hm.
  injection Ht as <-. injection Hm as <-. exact Hv.
Defined.

End Totals.

(** ** Sessions do not interfere *)
Section Isolation.
Import Sessions.

Lemma startSession_table_other (env : Env) (destroyOk : bool)
    (session : Schema.WhatsappSession) (w : World) (sid' : jsstring) :
  Schema.sessionId session ≠ sid' →
  activeSessions (snd (startSession env destroyOk session w)) !! sid'
    = activeSessions w !! sid'.
Proof.
  intros Hne.
  destruct (stopIfRunning_frame destroyOk (Schema.sessionId session) w)
    as (_ & Hdel & _).
  destruct (startSession env destroyOk session w) as [[] w'] eqn:E; simpl.
  - destruct (startSession_true _ _ _ _ _ E)
      as (c & w1 & _ & _ & Hc & ms & _ & ->). simpl.
    apply createWhatsAppClient_frame in Hc as (_ & -> & _).
    by rewrite lookup_insert_ne, Hdel, lookup_delete_ne.
  - destruct (startSession_false _ _ _ _ _ E) as (_ & -> & _).
    by rewrite Hdel, lookup_delete_ne.
Qed.

Lemma stopSession_table_other (destroyOk : bool) (sid sid' : jsstring)
    (w : World) :
  sid ≠ sid' →
  activeSessions (snd (stopSession destroyOk sid w)) !! sid'
    = activeSessions w !! sid'.
Proof.
  intros Hne. destruct (activeSessions w !! sid) as [sd|] eqn:E.
  - rewrite (stopSession_live_eq _ _ _ _ E). simpl.
    by rewrite lookup_delete_ne.
  - by rewrite (stopSession_absent_eq _ _ _ E).
Qed.

Lemma stopSession_storage (destroyOk : bool) (sid : jsstring) (w : World) :
  storage (snd (stopSession destroyOk sid w)) = storage w.
Proof.
  destruct (activeSessions w !! sid) as [sd|] eqn:E.
  - by rewrite (stopSession_live_eq _ _ _ _ E).
  - by rewrite (stopSession_absent_eq _ _ _ E).
Qed.

Lemma sendNextMessage_record_other (realOk : bool) (now : Z)
    (sid sid' : jsstring) (w : World) :
  sid ≠ sid' →
  MemStorage.sessions (storage (sendNextMessage realOk now sid w)) !! sid'
    = MemStorage.sessions (storage w) !! sid'.
Proof.
  intros Hne.
  unfold sendNextMessage, sendNextMessage_enter, sendNextMessage_sent.
  destruct (activeSessions w !! sid) as [sd|]; [| done].
  destruct (targets sd !! targetIndex sd); [| done]. simpl.
  destruct (settles _ _); [| done]. simpl.
  unfold MemStorage.incrementMessageCount.
  destruct (MemStorage.sessions (storage w) !! sid); [| done]. simpl.
  by rewrite lookup_insert_ne.
Qed.

Lemma updateSessionStatus_other (now : Z) (sid sid' : jsstring) (b : bool)
    (st : MemStorage.t) :
  sid ≠ sid' →
  MemStorage.sessions (snd (MemStorage.updateSessionStatus now sid b st)) !! sid'
    = MemStorage.sessions st !! sid'.
Proof.
  intros Hne. unfold MemStorage.updateSessionStatus.
  destruct (MemStorage.sessions st !! sid); [| done]. simpl.
  by rewrite lookup_insert_ne.
Qed.

Lemma perform_other (o : Op) (w : World) (sid' : jsstring) :
  subject o ≠ Some sid' →
  activeSessions (perform o w) !! sid' = activeSessions w !! sid' ∧
  MemStorage.sessions (storage (perform o w)) !! sid'
    = MemStorage.sessions (storage w) !! sid'.
Proof.
  destruct o as [env d session | d sid | ok now sid
                | env d now nanoid b | d now [[|c sid]|]]; simpl; intros Hne;
    try done.
  - split; [apply startSession_table_other; congruence |].
    by rewrite startSession_storage.
  - split; [apply stopSession_table_other; congruence |].
    by rewrite stopSession_storage.
  - split; [apply sendNextMessage_other; congruence |].
    apply sendNextMessage_record_other. congruence.
  - assert (Hn : nanoid ≠ sid') by congruence.
    unfold Routes.startHandler. destruct (Routes.valid b); [| done].
    unfold MemStorage.createSession. simpl.
    match goal with
    | |- context [startSession env d ?s ?v] =>
        pose proof (startSession_table_other env d s v sid' Hn) as Ht;
        pose proof (startSession_storage env d s v) as Hs;
        destruct (startSession env d s v) as [[] w1]
    end; simpl in *.
    + rewrite Ht, Hs. simpl. by rewrite lookup_insert_ne.
    + rewrite Ht, updateSessionStatus_other, Hs by done. simpl.
      by rewrite lookup_insert_ne.
  - assert (Hn : c :: sid ≠ sid') by congruence.
    unfold Routes.stopHandler.
    destruct (MemStorage.getSessionById _ _); [| done].
    pose proof (stopSession_table_other d (c :: sid) sid' w Hn) as Ht.
    pose proof (stopSession_storage d (c :: sid) w) as Hs.
    destruct (stopSession d (c :: sid) w) as [[] w1]; simpl in *.
    + by rewrite Ht, updateSessionStatus_other, Hs.
    + by rewrite Ht, Hs.
Qed.

(** X18: in a world reached by completed calls, a call that works on
    one session id (a start, a stop, a dispatch step, or one of the
    two routes) leaves every other session exactly as it was: its
    table entry with lists and cursors, its armed timer, and its
    persisted record with count and flag. *)
Theorem other_sessions_untouched (o : Op) (w : World) (sid' : jsstring) :
  reachable w →
  subject o ≠ Some sid' →
  untouched sid' w (perform o w).
Proof.
  intros Hr Hne. destruct (perform_other o w sid' Hne) as [Ht Hs].
  split; [done |]. split; [| done].
  rewrite (liveTimers_entry sid' (perform o w)),
          (liveTimers_entry sid' w), Ht; [done | |].
  - by apply reachable_timersConsistent.
  - by apply reachable_timersConsistent, reachable_perform.
Qed.

Lemma other_sessions_untouched_witness :
  let w := snd (Routes.startHandler Ex.development true 0 Ex.s1 Ex.body init) in
  untouched Ex.s1 w
    (perform (PostStart Ex.development true 1 (JS.str "s2") Ex.body) w).
Proof.
  intros w. apply other_sessions_untouched.
  - apply (reachable_perform (PostStart Ex.development true 0 Ex.s1 Ex.body)).
    apply reachable_init.
  - discriminate.
Defined.

End Isolation.

(** ** Clients *)
Section Clients.
Import Sessions.

(** An invariant that ignores the store holds in every reachable
    world once the manager's three calls keep it. *)
Lemma reachable_manager_invariant (I : World → Prop) :
  I init →
  (∀ st w, I w → I (setStorage st w)) →
  (∀ env d session w, I w → I (snd (startSession env d session w))) →
  (∀ d sid w, I w → I (snd (stopSession d sid w))) →
  (∀ ok now sid w, I w → I (sendNextMessage ok now sid w)) →
  ∀ w, reachable w → I w.
Proof.
  intros Hinit Hst Hstart Hstop Htick w. induction 1 as [| o w _ IH]; [done |].
  destruct o as [env d session | d sid | ok now sid
                | env d now nanoid b | d now [[|c sid]|]]; simpl; auto.
  - unfold Routes.startHandler. destruct (Routes.valid b); [| done].
    destruct (MemStorage.createSession _ _ _) as [session st1].
    pose proof (Hstart env d session _ (Hst st1 w IH)) as H.
    destruct (startSession env d session (setStorage st1 w)) as [[] w1];
      simpl in *; auto.
  - unfold Routes.stopHandler.
    destruct (MemStorage.getSessionById _ _); [| done].
    pose proof (Hstop d (c :: sid) w IH) as H.
    destruct (stopSession d (c :: sid) w) as [[] w1]; simpl in *; auto.
Qed.

Lemma createWhatsAppClient_fresh (env : Env) (session : Schema.WhatsappSession)
    (w w1 : World) (c : Client) :
  createWhatsAppClient env session w = (Some c, w1) →
  clientId c = clientsCreated w ∧ clientsCreated w1 = S (clientsCreated w).
Proof.
  unfold createWhatsAppClient, realClient, newClient. intros H.
  repeat (case_match; simplify_eq/=); done.
Qed.

Lemma clientsSound_stop (d : bool) (sid : jsstring) (w : World) :
  clientsSound w → clientsSound (snd (stopSession d sid w)).
Proof.
  intros (Hlive & Hdist & Hnd & Hbound).
  destruct (activeSessions w !! sid) as [sd|] eqn:E;
    [| by rewrite (stopSession_absent_eq _ _ _ E)].
  rewrite (stopSession_live_eq _ _ _ _ E).
  destruct (Hlive _ _ E) as [Hlt Hnot].
  unfold clientsSound. simpl. split; [| split; [| split]].
  - intros sid0 sd0 [Hne H]%lookup_delete_Some.
    destruct (Hlive _ _ H) as [Hl Hn]. split; [done |].
    intros [Hin | Hin%list_elem_of_singleton]%elem_of_app; [done |].
    apply Hne. symmetry. by apply (Hdist _ _ _ _ H E).
  - intros sid1 sid2 sd1 sd2 [_ H1]%lookup_delete_Some
           [_ H2]%lookup_delete_Some. by apply Hdist.
  - apply NoDup_app. split; [done |]. split; [| apply NoDup_singleton].
    intros x Hx ->%list_elem_of_singleton. done.
  - intros c [Hin | ->%list_elem_of_singleton]%elem_of_app; auto.
Qed.

Lemma clientsSound_start (env : Env) (d : bool)
    (session : Schema.WhatsappSession) (w : World) :
  clientsSound w → clientsSound (snd (startSession env d session w)).
Proof.
  intros Hw.
  assert (H0 : clientsSound (stopIfRunning d (Schema.sessionId session) w)).
  { unfold stopIfRunning. destruct (activeSessions w !! _); [| done].
    by apply clientsSound_stop. }
  set (w0 := stopIfRunning d (Schema.sessionId session) w) in *.
  destruct H0 as (Hlive & Hdist & Hnd & Hbound).
  destruct (startSession env d session w) as [[] w'] eqn:E; simpl.
  - destruct (startSession_true _ _ _ _ _ E)
      as (c & w1 & _ & _ & Hc & ms & _ & ->). fold w0 in Hc.
    destruct (createWhatsAppClient_fresh _ _ _ _ _ Hc) as [Hid Hcr].
    apply createWhatsAppClient_frame in Hc as (_ & Htab & _ & _ & Hde & _).
    unfold clientsSound. simpl. rewrite Htab, Hde, Hcr.
    split; [| split; [| split]].
    + intros sid0 sd0 [[_ <-] | [_ H]]%lookup_insert_Some; simpl.
      * split; [lia |]. rewrite Hid. intros Hin.
        specialize (Hbound _ Hin). lia.
      * destruct (Hlive _ _ H). split; [lia | done].
    + intros sid1 sid2 sd1 sd2
             [[<- <-] | [Hne1 H1]]%lookup_insert_Some
             [[<- <-] | [Hne2 H2]]%lookup_insert_Some; simpl; try done.
      * rewrite Hid. intros Heq. destruct (Hlive _ _ H2). lia.
      * rewrite Hid. intros Heq. destruct (Hlive _ _ H1). lia.
      * by apply Hdist.
    + done.
    + intros x Hx. specialize (Hbound _ Hx). lia.
  - destruct (startSession_false _ _ _ _ _ E)
      as (_ & Htab & _ & _ & Hde & _ & Hle). fold w0 in Htab, Hde, Hle.
    unfold clientsSound. rewrite Htab, Hde.
    split; [| split; [| split]]; try done.
    + intros sid0 sd0 H. destruct (Hlive _ _ H). split; [lia | done].
    + intros x Hx. specialize (Hbound _ Hx). lia.
Qed.

Lemma clientsSound_step (ok : bool) (now : Z) (sid : jsstring) (w : World) :
  clientsSound w → clientsSound (sendNextMessage ok now sid w).
Proof.
  intros (Hlive & Hdist & Hnd & Hbound).
  destruct (activeSessions w !! sid) as [sd|] eqn:Hsd;
    [| by rewrite sendNextMessage_absent].
  destruct (targets sd !! targetIndex sd) as [t|] eqn:Ht;
    [| unfold sendNextMessage, sendNextMessage_enter; by rewrite Hsd, Ht].
  rewrite (sendNextMessage_live _ _ _ _ _ _ Hsd Ht). simpl.
  destruct (settles _ _); [| done].
  assert (Hsame : ∀ sid0 sd0,
            <[sid := advance sd]> (activeSessions w) !! sid0 = Some sd0 →
            ∃ sd1, activeSessions w !! sid0 = Some sd1 ∧
                   client sd0 = client sd1).
  { intros sid0 sd0 [[<- <-] | [_ H]]%lookup_insert_Some; eauto. }
  unfold clientsSound. simpl. split; [| split; [| split]]; try done.
  - intros sid0 sd0 H.
    destruct (Hsame _ _ H) as (sd1 & H1 & ->). by apply (Hlive _ _ H1).
  - intros sid1 sid2 sd1 sd2 H1 H2.
    destruct (Hsame _ _ H1) as (q1 & Hq1 & ->).
    destruct (Hsame _ _ H2) as (q2 & Hq2 & ->). by apply Hdist.
Qed.

(** X19: in every world reached by completed calls, the clients held
    by live sessions have been constructed, differ from session to
    session and have not been destroyed, and no client has been
    destroyed twice; so a stop or restart destroys the client of the
    session it ends, once, and a running session never holds a
    destroyed client. *)
Theorem live_clients_are_sound (w : World) (sid : jsstring) (sd : SessionData) :
  reachable w →
  clientsSound w ∧
  (activeSessions w !! sid = Some sd →
   ∀ d, let w' := snd (stopSession d sid w) in
        (clientId (client sd) ∉ destroyed w) ∧
        destroyed w' = destroyed w ++ [clientId (client sd)] ∧
        clientsSound w').
Proof.
  intros Hr.
  assert (Hw : clientsSound w).
  { revert w Hr. apply reachable_manager_invariant.
    - unfold clientsSound. simpl. split; [| split; [| split]].
      + intros ? ? H. by rewrite lookup_empty in H.
      + intros ? ? ? ? H. by rewrite lookup_empty in H.
      + constructor.
      + intros c Hc. by apply elem_of_nil in Hc.
    - by intros st w.
    - intros. by apply clientsSound_start.
    - intros. by apply clientsSound_stop.
    - intros. by apply clientsSound_step. }
  split; [done |]. intros Hsd d w'. subst w'.
  split; [by apply (proj1 Hw _ _ Hsd) |].
  split; [| by apply clientsSound_stop].
  by rewrite (stopSession_live_eq _ _ _ _ Hsd).
Qed.

Lemma live_clients_are_sound_witness :
  let w1 := snd (startSession Ex.development true Ex.ab_hibye init) in
  let w2 := snd (startSession Ex.production true Ex.ab_hibye w1) in
  destroyed w2 = [0] ∧ clientsSound w2.
Proof.
  intros w1 w2.
  assert (Hr : reachable w2).
  { apply (reachable_perform (Start Ex.production true Ex.ab_hibye)).
    apply (reachable_perform (Start Ex.development true Ex.ab_hibye)).
    apply reachable_init. }
  split; [reflexivity |].
  apply (live_clients_are_sound w2 Ex.s1
           {| client := {| clientId := 1; simulated := false |};
              interval := Some 1; targets := []; messages := [];
              delay := 0; messageIndex := 0; targetIndex := 0 |} Hr).
Defined.

End Clients.

(** ** The routes *)
Section RouteOutcomes.

Lemma stopHandler_live (d : bool) (now : Z) (sid : jsstring) (w : World)
    (r : Schema.WhatsappSession) (sd : SessionData) :
  sid ≠ [] →
  MemStorage.sessions (storage w) !! sid = Some r →
  activeSessions w !! sid = Some sd →
  Routes.stopHandler d now (Some sid) w =
    ({| Routes.status := 200; Routes.success := true;
        Routes.r_sessionId := None |},
     setStorage
       {| MemStorage.sessions :=
            <[sid := MemStorage.withStatus false now r]>
              (MemStorage.sessions (storage w)) |}
       (snd (stopSession d sid w))).
Proof.
  intros Hne Hr Hsd. unfold Routes.stopHandler.
  destruct sid as [|c sid]; [done |].
  unfold MemStorage.getSessionById. rewrite Hr.
  rewrite (stopSession_live_eq _ _ _ _ Hsd). simpl.
  unfold MemStorage.updateSessionStatus. simpl. by rewrite Hr.
Qed.

(** X20: the stop route answers 400 exactly when no session id (or
    an empty one) is given, 404 exactly when the id has no persisted
    record, 500 exactly when it has a record but no live session, and
    200 exactly when it has both.  After a 200 the session is gone
    from the table and its record is inactive, so repeating the same
    request is answered 500 and changes nothing. *)
Theorem stopHandler_cases (d : bool) (now : Z) (sessionId : option jsstring)
    (w : World) :
  let answer := Routes.stopHandler d now sessionId w in
  let code := Routes.status (fst answer) in
  let known sid := is_Some (MemStorage.sessions (storage w) !! sid) in
  let live sid := is_Some (activeSessions w !! sid) in
  (code = 400 ↔ sessionId = None ∨ sessionId = Some []) ∧
  (code = 404 ↔ ∃ sid, sessionId = Some sid ∧ sid ≠ [] ∧ ¬ known sid) ∧
  (code = 500 ↔
     ∃ sid, sessionId = Some sid ∧ sid ≠ [] ∧ known sid ∧ ¬ live sid) ∧
  (code = 200 ↔ ∃ sid, sessionId = Some sid ∧ sid ≠ [] ∧ known sid ∧ live sid) ∧
  (code = 200 →
     ∃ sid, sessionId = Some sid ∧
       activeSessions (snd answer) !! sid = None ∧
       isActiveOf sid (snd answer) = Some false ∧
       ∀ d' now',
         Routes.stopHandler d' now' sessionId (snd answer) =
           ({| Routes.status := 500; Routes.success := false;
               Routes.r_sessionId := None |}, snd answer)).
Proof.
  intros answer code known live. subst answer code known live.
  unfold Routes.stopHandler, MemStorage.getSessionById, is_Some.
  destruct sessionId as [[|c sid]|]; simpl.
  1, 3: split_and!; naive_solver.
  destruct (MemStorage.sessions (storage w) !! (c :: sid)) as [r|] eqn:Er;
    [| simpl; split_and!; naive_solver].
  destruct (activeSessions w !! (c :: sid)) as [sd|] eqn:Esd.
  - rewrite (stopSession_live_eq _ _ _ _ Esd). simpl.
    unfold MemStorage.updateSessionStatus. simpl. rewrite Er. simpl.
    split_and!; try naive_solver.
    intros _. exists (c :: sid). split; [done |].
    split; [apply lookup_delete_eq |].
    split; [unfold isActiveOf; simpl; by rewrite lookup_insert_eq |].
    intros d' now'. rewrite lookup_insert_eq.
    rewrite stopSession_absent_eq by apply lookup_delete_eq. done.
  - rewrite (stopSession_absent_eq _ _ _ Esd). simpl.
    split_and!; naive_solver.
Qed.

Lemma stopHandler_cases_witness :
  let w := snd (Routes.startHandler Ex.development true 0 Ex.s1 Ex.body init) in
  let once := Routes.stopHandler true 1 (Some Ex.s1) w in
  Routes.status (fst once) = 200 ∧
  Routes.status (fst (Routes.stopHandler true 2 (Some Ex.s1) (snd once))) = 500.
Proof.
  intros w once.
  destruct (stopHandler_cases true 1 (Some Ex.s1) w)
    as (_ & _ & _ & H200 & Hafter).
  assert (Hok : Routes.status (fst once) = 200).
  { apply H200. exists Ex.s1. split; [done |]. split; [discriminate |].
    split; by eexists. }
  split; [exact Hok |].
  destruct (Hafter Hok) as (sid & _ & _ & _ & Hagain).
  subst once. by rewrite Hagain.
Defined.

Lemma failed_start_entry (env : Env) (d : bool)
    (session : Schema.WhatsappSession) (w w' : World) :
  startSession env d session w = (false, w') →
  activeSessions w' !! Schema.sessionId session = None.
Proof.
  intros H.
  destruct (startSession_false _ _ _ _ _ H) as (_ & -> & _).
  destruct (stopIfRunning_frame d (Schema.sessionId session) w)
    as (_ & -> & _).
  apply lookup_delete_eq.
Qed.

(** X21: the start route answers 400 exactly when the body fails
    validation, and then changes nothing.  Otherwise it persists a
    record under the generated id, inactive and with a zero count, and
    answers 200 when [startSession] succeeds on it and 500 when not;
    with 500 no live session exists for the id.  In particular a body
    that passes validation but whose targets are all blank (commas and
    white space only) is answered 500 and leaves its record behind. *)
Theorem startHandler_cases (env : Env) (d : bool) (now : Z)
    (nanoid : jsstring) (b : Routes.StartBody) (w : World) :
  let answer := Routes.startHandler env d now nanoid b w in
  let code := Routes.status (fst answer) in
  (code = 400 ↔ Routes.valid b = false) ∧
  (code = 400 → snd answer = w) ∧
  (Routes.valid b = true →
     (code = 200 ∨ code = 500) ∧
     (∃ r, MemStorage.sessions (storage (snd answer)) !! nanoid = Some r ∧
           Schema.isActive r = false ∧ Schema.messageCount r = 0 ∧
           Schema.createdAt r = now ∧
           Schema.targets r = Routes.b_targets b) ∧
     (code = 200 ↔ is_Some (activeSessions (snd answer) !! nanoid)) ∧
     (parseTargets (Routes.b_targets b) = [] → code = 500)).
Proof.
  intros answer code. subst answer code. unfold Routes.startHandler.
  destruct (Routes.valid b) eqn:Ev; simpl;
    [| repeat split; try done].
  unfold MemStorage.createSession. simpl.
  match goal with
  | |- context [startSession env d ?s ?v] =>
      pose proof (startSession_storage env d s v) as Hst;
      destruct (startSession env d s v) as [[] w1] eqn:E
  end; simpl in *.
  - destruct (startSession_true _ _ _ _ _ E)
      as (c & w2 & Htg & _ & _ & ms & _ & Ew).
    split; [split; discriminate |]. split; [discriminate |]. intros _.
    split; [by left |]. split.
    + rewrite Hst. simpl. rewrite lookup_insert_eq. by eexists.
    + split.
      * split; [| done]. intros _. rewrite Ew. simpl.
        rewrite lookup_insert_eq. by eexists.
      * intros Hblank. by destruct Htg.
  - pose proof (failed_start_entry _ _ _ _ _ E) as Hnone.
    split; [split; congruence |]. split; [discriminate |]. intros _.
    split; [by right |]. split.
    + unfold MemStorage.updateSessionStatus. rewrite Hst. simpl.
      rewrite lookup_insert_eq. simpl. rewrite lookup_insert_eq.
      by eexists.
    + split; [| done]. split; [discriminate |].
      intros [sd Hsd]. simpl in Hnone. congruence.
Qed.

Lemma startHandler_cases_witness :
  let blank := {| Routes.b_phoneNumber := JS.str "40700000000";
                  Routes.b_phoneId := None;
                  Routes.b_targets := JS.str " , ";
                  Routes.b_messagePath := JS.str "uploads/messages/m.txt";
                  Routes.b_messageText := Some (JS.str "hi");
                  Routes.b_delay := None;
                  Routes.b_connectionType := JS.str "creds" |} in
  let answer := Routes.startHandler Ex.development true 7 Ex.s1 blank init in
  Routes.status (fst answer) = 500 ∧
  is_Some (MemStorage.sessions (storage (snd answer)) !! Ex.s1).
Proof.
  intros blank answer.
  destruct (startHandler_cases Ex.development true 7 Ex.s1 blank init)
    as (_ & _ & Hvalid).
  destruct (Hvalid eq_refl) as (_ & (r & Hr & _) & _ & Hblank).
  split; [by apply Hblank |]. by exists r.
Defined.

Lemma dispatch_record (sid : jsstring) (ticks : list (bool * Z)) :
  ∀ (w : World) (sd : SessionData) (r : Schema.WhatsappSession),
    activeSessions w !! sid = Some sd →
    messageIndex sd < length (messages sd) →
    targetIndex sd < length (targets sd) →
    MemStorage.sessions (storage w) !! sid = Some r →
    ∃ r', MemStorage.sessions (storage (dispatch sid ticks w)) !! sid = Some r' ∧
      Schema.messageCount r'
        = Schema.messageCount r + successes (client sd) ticks ∧
      Schema.isActive r' = Schema.isActive r ∧
      Schema.createdAt r' = Schema.createdAt r ∧
      Schema.connectionType r' = Schema.connectionType r.
Proof.
  induction ticks as [|[ok now] ticks IH]; intros w sd r Hsd HM HT Hr.
  - exists r. unfold successes. simpl. repeat split; try done; lia.
  - simpl. fold (dispatch sid ticks (sendNextMessage ok now sid w)).
    destruct (lookup_lt_is_Some_2 _ _ HT) as [t Ht].
    pose proof (sendNextMessage_live ok now sid w sd t Hsd Ht) as Estep.
    simpl in Estep. unfold successes. simpl.
    destruct (settles (client sd) ok) eqn:Eok.
    + destruct (advance_in_range sd HM HT) as [HM' HT'].
      destruct (IH (sendNextMessage ok now sid w) (advance sd)
                  (MemStorage.withCount (Schema.messageCount r + 1) now r))
        as (r' & Hr' & Hc & Hf & Hcr & Hct); try done.
      { rewrite Estep. simpl. apply lookup_insert_eq. }
      { rewrite Estep. simpl. unfold MemStorage.incrementMessageCount.
        rewrite Hr. simpl. apply lookup_insert_eq. }
      exists r'. split; [done |]. rewrite Hc, Hf, Hcr, Hct. simpl.
      fold (successes (client sd) ticks). repeat split; try done; lia.
    + destruct (IH (sendNextMessage ok now sid w) sd r)
        as (r' & Hr' & Hc & Hf & Hcr & Hct); try done;
        try (by rewrite Estep).
      exists r'. by rewrite Hc, Hf, Hcr, Hct.
Qed.

(** X22: the status route answers 400 without a non-empty string id
    and 404 for an id without a record.  For a session the start route
    has started (under a non-empty id) it answers 200 and, after any
    run of dispatch steps, reports as message count the number of
    sends that resolved, as start time the time of creation, the
    connection type of the request, and [isActive = false]. *)
Theorem statusHandler_reports (env : Env) (d : bool) (now : Z)
    (nanoid : jsstring) (b : Routes.StartBody) (w w0 : World)
    (r : Routes.Response) (ticks : list (bool * Z)) :
  (∀ v, MoreRoutes.statusHandler MoreRoutes.Missing v = (400, None) ∧
        MoreRoutes.statusHandler MoreRoutes.NotString v = (400, None) ∧
        MoreRoutes.statusHandler (MoreRoutes.Str []) v = (400, None) ∧
        ∀ sid, sid ≠ [] → MemStorage.sessions (storage v) !! sid = None →
               MoreRoutes.statusHandler (MoreRoutes.Str sid) v = (404, None)) ∧
  (nanoid ≠ [] →
   Routes.startHandler env d now nanoid b w = (r, w0) →
   Routes.status r = 200 →
   ∃ sd, activeSessions w0 !! nanoid = Some sd ∧
     MoreRoutes.statusHandler (MoreRoutes.Str nanoid) (dispatch nanoid ticks w0)
       = (200,
          Some {| MoreRoutes.s_isActive := false;
                  MoreRoutes.s_messageCount := successes (client sd) ticks;
                  MoreRoutes.s_startTime := now;
                  MoreRoutes.s_connectionMethod := Routes.b_connectionType b |})).
Proof.
  split.
  - intros v. repeat split; try done.
    intros [|c sid] Hne Hnone; [done |].
    unfold MoreRoutes.statusHandler, MemStorage.getSessionById.
    by rewrite Hnone.
  - intros Hne Hrun Hok. unfold Routes.startHandler in Hrun.
    destruct (Routes.valid b); [| injection Hrun as <- <-; discriminate Hok].
    unfold MemStorage.createSession in Hrun. simpl in Hrun.
    match type of Hrun with
    | context [startSession env d ?s ?v] =>
        pose proof (startSession_storage env d s v) as Hst;
        destruct (startSession env d s v) as [[] w1] eqn:E
    end; [| injection Hrun as <- <-; discriminate Hok].
    injection Hrun as <- <-. simpl in Hst.
    destruct (startSession_true _ _ _ _ _ E)
      as (c & w2 & Htg & Hnm & _ & ms & Hms & Ew). simpl in Ew.
    eexists. split; [rewrite Ew; simpl; apply lookup_insert_eq |].
    edestruct (dispatch_record nanoid ticks w1) as (r' & Hr' & Hc & Hf & Hcr & Hct).
    + rewrite Ew. simpl. apply lookup_insert_eq.
    + simpl. destruct ms; [congruence | simpl; lia].
    + simpl. destruct (parseTargets _); [done | simpl; lia].
    + rewrite Hst. simpl. apply lookup_insert_eq.
    + unfold MoreRoutes.statusHandler, MemStorage.getSessionById.
      destruct nanoid as [|c0 nanoid]; [done |].
      rewrite Hr', Hc, Hf, Hcr, Hct. reflexivity.
Qed.

Lemma statusHandler_reports_witness :
  let w0 := snd (Routes.startHandler Ex.production true 7 Ex.s1 Ex.body init) in
  let ticks := [(true, 8%Z); (false, 9%Z)] in
  MoreRoutes.statusHandler (MoreRoutes.Str Ex.s1) (dispatch Ex.s1 ticks w0)
    = (200,
       Some {| MoreRoutes.s_isActive := false;
               MoreRoutes.s_messageCount := 1;
               MoreRoutes.s_startTime := 7;
               MoreRoutes.s_connectionMethod := JS.str "creds" |}).
Proof.
  intros w0 ticks.
  destruct (statusHandler_reports Ex.production true 7 Ex.s1 Ex.body init w0
              (fst (Routes.startHandler Ex.production true 7 Ex.s1 Ex.body init))
              ticks) as [_ H].
  destruct H as (sd & Hsd & Hstatus); [discriminate | reflexivity | reflexivity |].
  vm_compute in Hsd. injection Hsd as <-. exact Hstatus.
Defined.

End RouteOutcomes.

(** ** Persisted records over completed calls *)
Section Retention.
Import Sessions.

Lemma sendNextMessage_record (ok : bool) (now : Z) (sid0 sid : jsstring)
    (w : World) (r : Schema.WhatsappSession) :
  MemStorage.sessions (storage w) !! sid = Some r →
  ∃ r', MemStorage.sessions (storage (sendNextMessage ok now sid0 w)) !! sid
          = Some r' ∧
        Schema.messageCount r ≤ Schema.messageCount r' ≤ Schema.messageCount r + 1 ∧
        Schema.id r' = Schema.id r ∧ Schema.createdAt r' = Schema.createdAt r ∧
        Schema.isActive r' = Schema.isActive r.
Proof.
  intros Hr.
  unfold sendNextMessage, sendNextMessage_enter, sendNextMessage_sent.
  destruct (activeSessions w !! sid0) as [sd|];
    [| exists r; repeat split; try done; lia].
  destruct (targets sd !! targetIndex sd);
    [| exists r; repeat split; try done; lia]. simpl.
  destruct (settles _ _); [| exists r; repeat split; try done; lia]. simpl.
  unfold MemStorage.incrementMessageCount.
  destruct (decide (sid0 = sid)) as [-> | Hne].
  - rewrite Hr. simpl. rewrite lookup_insert_eq. eexists.
    split; [done |]. simpl. repeat split; try done; lia.
  - destruct (MemStorage.sessions (storage w) !! sid0); simpl;
      [rewrite lookup_insert_ne by done |];
      exists r; repeat split; try done; lia.
Qed.

(** X23: no completed call ever removes a persisted record.  A record
    that exists before a start, a stop, a dispatch step or a route
    call exists after it; unless the call is the start route creating
    a session under that very id, it keeps its row id and creation
    time, and its count stays the same or grows by one. *)
Theorem records_are_never_deleted (o : Op) (w : World) (sid : jsstring)
    (r : Schema.WhatsappSession) :
  MemStorage.sessions (storage w) !! sid = Some r →
  ∃ r', MemStorage.sessions (storage (perform o w)) !! sid = Some r' ∧
    ((∀ env d now b, o ≠ PostStart env d now sid b) →
       Schema.id r' = Schema.id r ∧
       Schema.createdAt r' = Schema.createdAt r ∧
       Schema.messageCount r ≤ Schema.messageCount r'
         ≤ Schema.messageCount r + 1).
Proof.
  intros Hr.
  destruct o as [env d session | d sid0 | ok now sid0
                | env d now nanoid b | d now [[|c sid0]|]]; simpl.
  - rewrite startSession_storage. exists r. split; [done |].
    intros _. repeat split; try done; lia.
  - rewrite stopSession_storage. exists r. split; [done |].
    intros _. repeat split; try done; lia.
  - destruct (sendNextMessage_record ok now sid0 sid w r Hr)
      as (r' & Hr' & Hc & Hid & Hcr & _).
    exists r'. split; [done |]. by intros _.
  - unfold Routes.startHandler.
    destruct (Routes.valid b);
      [| exists r; split; [done |]; intros _; repeat split; try done; lia].
    unfold MemStorage.createSession. simpl.
    match goal with
    | |- context [startSession env d ?s ?v] =>
        pose proof (startSession_storage env d s v) as Hst;
        destruct (startSession env d s v) as [[] w1]
    end; simpl in *.
    + rewrite Hst. simpl.
      destruct (decide (nanoid = sid)) as [-> | Hne].
      * rewrite lookup_insert_eq. eexists. split; [done |].
        intros H. by destruct (H env d now b).
      * rewrite lookup_insert_ne by done. exists r. split; [done |].
        intros _. repeat split; try done; lia.
    + unfold MemStorage.updateSessionStatus. rewrite Hst. simpl.
      rewrite lookup_insert_eq. simpl.
      destruct (decide (nanoid = sid)) as [-> | Hne].
      * rewrite lookup_insert_eq. eexists. split; [done |].
        intros H. by destruct (H env d now b).
      * rewrite !lookup_insert_ne by done. exists r. split; [done |].
        intros _. repeat split; try done; lia.
  - exists r. split; [done |]. intros _. repeat split; try done; lia.
  - unfold Routes.stopHandler, MemStorage.getSessionById.
    destruct (MemStorage.sessions (storage w) !! (c :: sid0)) as [r0|] eqn:E0;
      [| exists r; split; [done |]; intros _; repeat split; try done; lia].
    pose proof (stopSession_storage d (c :: sid0) w) as Hst.
    destruct (stopSession d (c :: sid0) w) as [[] w1]; simpl in *.
    + unfold MemStorage.updateSessionStatus. rewrite Hst, E0. simpl.
      destruct (decide (c :: sid0 = sid)) as [<- | Hne].
      * rewrite lookup_insert_eq. eexists. split; [done |].
        intros _. simpl. assert (r0 = r) as -> by congruence.
        repeat split; try done; lia.
      * rewrite lookup_insert_ne by done. exists r. split; [done |].
        intros _. repeat split; try done; lia.
    + rewrite Hst. exists r. split; [done |].
      intros _. repeat split; try done; lia.
  - exists r. split; [done |]. intros _. repeat split; try done; lia.
Qed.

Lemma records_are_never_deleted_witness :
  let w := snd (Routes.startHandler Ex.production true 0 Ex.s1 Ex.body init) in
  ∃ r', MemStorage.sessions
          (storage (perform (PostStop true 5 (Some Ex.s1))
                      (perform (Tick true 3 Ex.s1) w))) !! Ex.s1 = Some r' ∧
        Schema.messageCount r' = 1.
Proof.
  intros w.
  assert (Hr : ∃ r, MemStorage.sessions
                      (storage (perform (Tick true 3 Ex.s1) w)) !! Ex.s1
                    = Some r ∧ Schema.messageCount r = 1)
    by (eexists; split; [vm_compute; reflexivity | reflexivity]).
  destruct Hr as (r & Hr & Hc).
  destruct (records_are_never_deleted (PostStop true 5 (Some Ex.s1)) _ _ _ Hr)
    as (r' & Hr' & Hkeep).
  exists r'. split; [exact Hr' |].
  vm_compute in Hr'. injection Hr' as <-. reflexivity.
Defined.

(** X24: for a session that the start route has started, with [delay]
    the value of the request, or 10 when the request has none: the
    delay is at least 1, the entry and the persisted record hold it,
    and the armed timer's period is [delay] thousand milliseconds for a
    delay of up to 2147483 seconds and one millisecond for any larger
    delay, which the validation lets through.  The default of 5 that
    [createSession] holds for a zero delay never applies to a request
    that passed validation. *)
Theorem started_session_period (env : Env) (d : bool) (now : Z)
    (nanoid : jsstring) (b : Routes.StartBody) (w w' : World)
    (r : Routes.Response) :
  Routes.startHandler env d now nanoid b w = (r, w') →
  Routes.status r = 200 →
  let seconds := default 10%Z (Routes.b_delay b) in
  (1 ≤ seconds)%Z ∧
  ∃ h sd, activeSessions w' !! nanoid = Some sd ∧
    interval sd = Some h ∧ delay sd = seconds ∧
    timers w' !! h =
      Some {| callbackSession := nanoid;
              period := if decide (seconds ≤ 2147483)%Z
                        then seconds * 1000 else 1 |} ∧
    Schema.delay <$> MemStorage.sessions (storage w') !! nanoid = Some seconds.
Proof.
  intros Hrun Hok seconds. unfold Routes.startHandler in Hrun.
  destruct (Routes.valid b) eqn:Ev;
    [| injection Hrun as <- <-; discriminate Hok].
  assert (Hsec : (1 ≤ seconds)%Z).
  { unfold Routes.valid in Ev. subst seconds.
    apply andb_true_iff in Ev as [Ev _]. apply andb_true_iff in Ev as [_ Ev].
    destruct (Routes.b_delay b); simpl in *; lia. }
  unfold MemStorage.createSession in Hrun. simpl in Hrun.
  fold seconds in Hrun.
  assert (Hnz : (seconds =? 0)%Z = false) by lia.
  rewrite Hnz in Hrun.
  match type of Hrun with
  | context [startSession env d ?s ?v] =>
      pose proof (startSession_storage env d s v) as Hst;
      destruct (startSession env d s v) as [[] w1] eqn:E
  end; [| injection Hrun as <- <-; discriminate Hok].
  injection Hrun as <- <-. simpl in Hst.
  destruct (startSession_true _ _ _ _ _ E)
    as (c & w2 & _ & _ & _ & ms & _ & Ew). simpl in Ew.
  split; [done |]. eexists _, _.
  split; [rewrite Ew; simpl; apply lookup_insert_eq |]. simpl.
  split; [done |]. split; [done |]. split.
  - rewrite Ew. simpl. rewrite lookup_insert_eq, timerDelay_seconds.
    do 3 f_equal. fold seconds.
    destruct (decide (1 ≤ seconds ≤ 2147483)%Z),
      (decide (seconds ≤ 2147483)%Z); try done; lia.
  - rewrite Hst. simpl. by rewrite lookup_insert_eq.
Qed.

Lemma started_session_period_witness :
  let noDelay := {| Routes.b_phoneNumber := JS.str "40700000000";
                    Routes.b_phoneId := Some (JS.str "15550001");
                    Routes.b_targets := JS.str "a,b";
                    Routes.b_messagePath := JS.str "uploads/messages/m.txt";
                    Routes.b_messageText := Some (JS.str "hi");
                    Routes.b_delay := None;
                    Routes.b_connectionType := JS.str "phoneId" |} in
  let w' := snd (Routes.startHandler Ex.development true 0 Ex.s1 noDelay init) in
  timers w' !! 0 = Some {| callbackSession := Ex.s1; period := 10000 |}.
Proof.
  intros noDelay w'.
  destruct (started_session_period Ex.development true 0 Ex.s1 noDelay init w'
              (fst (Routes.startHandler Ex.development true 0 Ex.s1 noDelay init))
              eq_refl eq_refl)
    as (_ & h & sd & Hsd & Hh & _ & Htm & _).
  vm_compute in Hsd. injection Hsd as <-. simpl in Hh. injection Hh as <-.
  exact Htm.
Defined.

End Retention.
